(** * Dentistry clinic records: the store workflows and the teeth selector

    A shallow embedding of [main.py]: the two validators, the teeth
    selection state of [open_teeth_selector], the transactional scope
    [session_scope] and the handlers of [DentistryClinicApp] that read or
    write the store ([show_records], [save], [delete_patient_gui],
    [modify_patient_gui] with its [save_modifications]).

    Conventions.
    - A Python [str] is a [string]; a character is a code point below 256.
    - A Python set of strings is a [gset string].
    - [None] is [None]; a raised exception is the [Raise] case of [result].
    - The data base is a value of type [Store] threaded through the
      handlers; what a handler shows is returned next to it. *)

From Stdlib Require Import ZArith Ascii String DecimalString Sorted Permutation.
From Stdlib Require Import Floats.SpecFloat.
From stdpp Require Import base decidable list strings gmap sets.

Local Open Scope Z_scope.

(** ** Python's [str] methods used by the program *)

Module Text.

(** [str.isspace] on code points below 256: TAB..CR, FS..US, SPACE,
    NEL (0x85) and NBSP (0xA0). [str.strip()] removes exactly these. *)
Definition is_space (c : ascii) : bool :=
  let n := N_of_ascii c in
  ((9 <=? n) && (n <=? 13) || (28 <=? n) && (n <=? 32)
   || (n =? 133) || (n =? 160))%N.

Fixpoint lstrip (s : string) : string :=
  match s with
  | EmptyString => EmptyString
  | String c s' => if is_space c then lstrip s' else s
  end.

Fixpoint rstrip (s : string) : string :=
  match s with
  | EmptyString => EmptyString
  | String c s' =>
      match rstrip s' with
      | EmptyString => if is_space c then EmptyString else String c EmptyString
      | r => String c r
      end
  end.

(** [s.strip()] *)
Definition strip (s : string) : string := rstrip (lstrip s).

(** [s.split(sep)] for a separator of one character: the pieces between
    the separators, in order; always at least one piece. *)
Fixpoint split (sep : ascii) (s : string) : list string :=
  match s with
  | EmptyString => [EmptyString]
  | String c s' =>
      if Ascii.eqb c sep then EmptyString :: split sep s'
      else match split sep s' with
           | piece :: pieces => String c piece :: pieces
           | [] => [String c EmptyString]
           end
  end.

(** [sep.join(l)] *)
Fixpoint join (sep : string) (l : list string) : string :=
  match l with
  | [] => EmptyString
  | [x] => x
  | x :: l' => x +:+ sep +:+ join sep l'
  end.

(** [c in s] for a character *)
Fixpoint mem (c : ascii) (s : string) : bool :=
  match s with
  | EmptyString => false
  | String d s' => Ascii.eqb c d || mem c s'
  end.

(** [str(n)] and the [{n}] of an f-string, for an [int] *)
Definition str_int (n : Z) : string := NilEmpty.string_of_int (Z.to_int n).

(** [s.startswith(p)] *)
Fixpoint startswith (p s : string) : bool :=
  match p, s with
  | EmptyString, _ => true
  | String a p', String b s' => Ascii.eqb a b && startswith p' s'
  | String _ _, EmptyString => false
  end.

(** [term in text] *)
Fixpoint contains (term text : string) : bool :=
  startswith term text
  || match text with
     | EmptyString => false
     | String _ text' => contains term text'
     end.

(** The first and the last character of [s] *)
Definition first_char (s : string) : option ascii :=
  match s with
  | EmptyString => None
  | String c _ => Some c
  end.

Fixpoint last_char (s : string) : option ascii :=
  match s with
  | EmptyString => None
  | String c EmptyString => Some c
  | String _ s' => last_char s'
  end.

(** [bool(s)]: a string is true when it is not empty *)
Definition truthy (s : string) : bool :=
  match s with EmptyString => false | _ => true end.

End Text.

(** ** [sorted]

    Python's [sorted] is stable and compares with [<] only. On lists, every
    stable sort computes the same function; this one inserts from the
    right, each element going before the first one that is not smaller. *)

Section Sorted.
Context {A : Type} (lt : A → A → bool).

Fixpoint insort (x : A) (l : list A) : list A :=
  match l with
  | [] => [x]
  | y :: l' => if lt y x then y :: insort x l' else x :: y :: l'
  end.

Definition sorted (l : list A) : list A := foldr insort [] l.
End Sorted.

(** ** The teeth selector ([open_teeth_selector]) *)

Module Teeth.
Import Text.

(** The selection set built from [initial_selection] when the selector
    opens (the spec's [parse]). *)
Definition add_tooth (selected_teeth : gset string) (tooth : string) : gset string :=
  let tooth := strip tooth in
  if truthy tooth then selected_teeth ∪ {[ tooth ]} else selected_teeth.

Definition open_teeth_selector (initial_selection : string) : gset string :=
  if truthy initial_selection
  then foldl add_tooth ∅ (split "," initial_selection)
  else ∅.

(** The keys of the [buttons] dictionary: one button per quadrant and
    position. *)
Definition quadrant_info : list string := ["UL"; "UR"; "LL"; "LR"].

Definition tooth_id (qabbr : string) (num : Z) : string := qabbr +:+ str_int num.

Definition buttons : list string :=
  qabbr ← quadrant_info; (λ i, tooth_id qabbr i) <$> [1; 2; 3; 4; 5; 6; 7; 8].

(** What [toggle_tooth] does to [selected_teeth] (the spec's [toggle]). *)
Definition toggle (tooth_id : string) (selected_teeth : gset string) : gset string :=
  if decide (tooth_id ∈ selected_teeth)
  then selected_teeth ∖ {[ tooth_id ]}
  else selected_teeth ∪ {[ tooth_id ]}.

(** [toggle_tooth(qabbr, num)]: [buttons[tooth_id]] raises [KeyError]
    ([None]) for an identifier that has no button. *)
Definition toggle_tooth (qabbr : string) (num : Z) (selected_teeth : gset string)
  : option (gset string) :=
  let tooth_id := tooth_id qabbr num in
  if decide (tooth_id ∈ buttons) then Some (toggle tooth_id selected_teeth) else None.

(** [on_ok]: the string handed to the callback (the spec's [serialize]). *)
Definition on_ok (selected_teeth : gset string) : string :=
  join ", " (sorted String.ltb (elements selected_teeth)).

(** A token that survives the round trip: not empty, without a comma,
    without whitespace at either end. *)
Definition token (t : string) : Prop :=
  t ≠ EmptyString
  ∧ mem "," t = false
  ∧ (∀ c, first_char t = Some c → is_space c = false)
  ∧ (∀ c, last_char t = Some c → is_space c = false).

End Teeth.

(** ** The validators *)

Module Validate.
Import Text.

(** [\d] on code points below 256 *)
Definition is_digit (c : ascii) : bool :=
  let n := N_of_ascii c in ((48 <=? n) && (n <=? 57))%N.

(** The longest run of digits at the front of [s], and what follows it. *)
Fixpoint span_digits (s : string) : nat * string :=
  match s with
  | String c s' =>
      if is_digit c then let '(n, rest) := span_digits s' in (S n, rest)
      else (O, s)
  | EmptyString => (O, EmptyString)
  end.

(** [$] without [re.MULTILINE]: the end of the string, or a newline that
    ends it. *)
Definition at_end (s : string) : bool :=
  match s with
  | EmptyString => true
  | String c EmptyString => Ascii.eqb c "010"
  | _ => false
  end.

(** [re.match(r'^\+?\d{8,15}$', phone)] *)
Definition validate_phone (phone : string) : option string :=
  let digits := match phone with
                | String "+" s => s
                | _ => phone
                end in
  let '(n, rest) := span_digits digits in
  if (8 <=? n)%nat && (n <=? 15)%nat && at_end rest then Some phone else None.

Section Fee.
(** Python's builtin [float] applied to a [str]: the IEEE value, or
    [None] where it raises [ValueError]. *)
Variable float : string → option spec_float.

(** [f >= 0] *)
Definition ge_zero (f : spec_float) : bool := SFleb (S754_zero false) f.

Definition validate_fee (fee : string) : option spec_float :=
  match float fee with
  | Some f => if ge_zero f then Some f else None
  | None => None
  end.
End Fee.

End Validate.

(** ** The tables *)

Record Date := mkDate { year : Z; month : Z; day : Z }.

(** [d1 < d2] on [datetime.date] *)
Definition date_ltb (d1 d2 : Date) : bool :=
  (year d1 <? year d2)
  || (year d1 =? year d2)
     && ((month d1 <? month d2) || (month d1 =? month d2) && (day d1 <? day d2)).

Module Patient.
Record t := mk {
  id : Z;
  patient_name : string;
  phone_number : string;
  treatment_type : option string;
  teeth_location : option string
}.

#[global] Instance eq_dec : EqDecision t.
Proof. solve_decision. Defined.
End Patient.

Module Appointment.
Record t := mk {
  id : Z;
  appointment_date : Date;
  treatment_type : string;
  dentist : string;
  fee : option spec_float;
  notes : option string;
  patient_id : option Z
}.
End Appointment.

Record Store := mkStore {
  patients : list Patient.t;
  appointments : list Appointment.t
}.

(** The constraints of the schema: the two primary keys and the [unique]
    phone number. [nullable=False] is in the types of the columns. *)
Definition constraints (db : Store) : Prop :=
  NoDup (Patient.id <$> patients db)
  ∧ NoDup (Patient.phone_number <$> patients db)
  ∧ NoDup (Appointment.id <$> appointments db).

(** An [INTEGER PRIMARY KEY] left out of an [INSERT]: one more than the
    largest key of the table, 1 in an empty table. *)
Definition next_id (ids : list Z) : Z := 1 + foldr Z.max 0 ids.

(** ** Sessions and [session_scope] *)

Inductive exn :=
| ValueError (msg : string)
| IntegrityError (msg : string).

(** [str(e)] *)
Definition str_exn (e : exn) : string :=
  match e with ValueError msg | IntegrityError msg => msg end.

Inductive result (A : Type) :=
| Ok (a : A)
| Raise (e : exn).
Arguments Ok {A} a.
Arguments Raise {A} e.

(** A session: the data base as committed when the session began, and the
    rows as the unit of work has them. *)
Record Session := mkSession { committed : Store; view : Store }.

(** Code that runs on the rows of an open session. *)
Definition M (A : Type) : Type := Store → result A * Store.

Definition ret {A} (a : A) : M A := λ rows, (Ok a, rows).
Definition raise {A} (e : exn) : M A := λ rows, (Raise e, rows).
Definition bind {A B} (m : M A) (k : A → M B) : M B :=
  λ rows, match m rows with
          | (Ok a, rows') => k a rows'
          | (Raise e, rows') => (Raise e, rows')
          end.

Notation "'let*' x ':=' m 'in' k" := (bind m (λ x, k))
  (at level 10, x name, m at level 100, k at level 200, only parsing).

(** [Session()] *)
Definition Session_ (db : Store) : Session := {| committed := db; view := db |}.

(** The body of a [with] block, run on the session it is given. *)
Definition run {A} (body : M A) (s : Session) : result A * Session :=
  let '(r, rows) := body (view s) in
  (r, {| committed := committed s; view := rows |}).

(** [session.commit()]: the flush checks the constraints; the rows become
    the committed data base. *)
Definition commit (s : Session) : result Store :=
  if decide (constraints (view s)) then Ok (view s)
  else Raise (IntegrityError "constraint failed").

(** [session.rollback()] *)
Definition rollback (s : Session) : Store := committed s.

(** [with session_scope() as session: body]. The [except] clause also
    covers [session.commit()]; [session.close()] leaves the data base as
    commit or rollback made it. *)
Definition session_scope {A} (body : M A) (db : Store) : result A * Store :=
  match run body (Session_ db) with
  | (Ok a, s) =>
      match commit s with
      | Ok db' => (Ok a, db')
      | Raise e => (Raise e, rollback s)
      end
  | (Raise e, s) => (Raise e, rollback s)
  end.

(** *** What the handlers do with a session

    SQLAlchemy sends the INSERT, UPDATE and DELETE statements of a unit of
    work at the flush of [commit]. No handler reads after it has written,
    so the rows below change at the call that registers the write, and a
    new row has its primary key at once. *)

(** [session.query(Patient).filter_by(phone_number=phone).first()] *)
Definition first_by_phone (phone : string) (db : Store) : option Patient.t :=
  List.find (λ p, bool_decide (Patient.phone_number p = phone)) (patients db).

Definition query_first_by_phone (phone : string) : M (option Patient.t) :=
  λ rows, (Ok (first_by_phone phone rows), rows).

(** [patient = Patient(...); session.add(patient)] *)
Definition add_patient (name phone : string) (treatment teeth : option string)
  : M Patient.t :=
  λ rows, let p := Patient.mk (next_id (Patient.id <$> patients rows))
                              name phone treatment teeth in
          (Ok p, {| patients := patients rows ++ [p];
                    appointments := appointments rows |}).

(** The three assignments to a patient. *)
Definition assign (name : string) (treatment teeth : option string) (p : Patient.t)
  : Patient.t :=
  Patient.mk (Patient.id p) name (Patient.phone_number p) treatment teeth.

(** The rows after the three assignments to the patient [p] that the
    session holds: they reach the row that has its primary key. *)
Definition overwrite (name : string) (treatment teeth : option string) (p : Patient.t)
    (l : list Patient.t) : list Patient.t :=
  (λ r, if decide (Patient.id r = Patient.id p)
        then assign name treatment teeth r else r) <$> l.

Definition set_patient (p : Patient.t) (name : string) (treatment teeth : option string)
  : M Patient.t :=
  λ rows, (Ok (assign name treatment teeth p),
           {| patients := overwrite name treatment teeth p (patients rows);
              appointments := appointments rows |}).

(** [session.add(Appointment(..., patient=patient))] *)
Definition add_appointment (date : Date) (treatment dentist : string)
    (fee : option spec_float) (notes : option string) (patient : Patient.t) : M unit :=
  λ rows,
    (Ok tt,
     {| patients := patients rows;
        appointments :=
          appointments rows
          ++ [Appointment.mk (next_id (Appointment.id <$> appointments rows))
                date treatment dentist fee notes (Some (Patient.id patient))] |}).

(** [patient.appointments] *)
Definition appointments_of (p : Patient.t) (db : Store) : list Appointment.t :=
  filter (λ a, Appointment.patient_id a = Some (Patient.id p)) (appointments db).

(** [session.delete(patient)], with [cascade="all, delete-orphan"] on
    [Patient.appointments]: the rows without the patient and without its
    appointments. *)
Definition deleted (p : Patient.t) (rows : Store) : Store :=
  {| patients := filter (λ r, Patient.id r ≠ Patient.id p) (patients rows);
     appointments :=
       filter (λ a, Appointment.patient_id a ≠ Some (Patient.id p))
         (appointments rows) |}.

Definition delete (p : Patient.t) : M unit := λ rows, (Ok tt, deleted p rows).

(** ** [ilike] as SQLite evaluates it *)

Module Sql.

(** SQLite's [lower()]: the letters A to Z, nothing else. *)
Definition lower_char (c : ascii) : ascii :=
  let n := N_of_ascii c in
  if ((65 <=? n) && (n <=? 90))%N then ascii_of_N (n + 32) else c.

Fixpoint lower (s : string) : string :=
  match s with
  | EmptyString => EmptyString
  | String c s' => String (lower_char c) (lower s')
  end.

(** [text LIKE pattern], no [ESCAPE]: [%] stands for any run of
    characters, [_] for any one character. *)
Fixpoint like (pattern text : string) : bool :=
  match pattern with
  | EmptyString => negb (Text.truthy text)
  | String "%" pattern' =>
      (fix any (t : string) : bool :=
         like pattern' t
         || match t with
            | EmptyString => false
            | String _ t' => any t'
            end) text
  | String "_" pattern' =>
      match text with
      | EmptyString => false
      | String _ text' => like pattern' text'
      end
  | String c pattern' =>
      match text with
      | EmptyString => false
      | String d text' => Ascii.eqb c d && like pattern' text'
      end
  end.

(** [column.ilike(pattern)], rendered [lower(column) LIKE lower(pattern)];
    a [NULL] column does not select the row. *)
Definition ilike (column : option string) (pattern : string) : bool :=
  match column with
  | Some text => like (lower pattern) (lower text)
  | None => false
  end.

End Sql.

(** ** The application *)

Inductive Dialog :=
| showinfo (title message : string)
| showerror (title message : string).

(** A line of the tree view. The date and the fee are kept as values:
    the line shows [strftime("%Y-%m-%d")] and [:.2f] of them, and nothing
    for [None]. *)
Record TreeRow := mkRow {
  col_patient : string;
  col_phone : string;
  col_patient_treatment : string;
  col_teeth_location : string;
  col_appointment_date : option Date;
  col_treatment : string;
  col_dentist : string;
  col_fee : option spec_float;
  col_notes : string
}.

Record App := mkApp { store : Store; tree : list TreeRow }.

(** [x if x else ""] *)
Definition or_empty (x : option string) : string :=
  match x with
  | Some s => s
  | None => EmptyString
  end.

(** *** [show_records] *)

(** The [filter] of [show_records], for the pattern [f"%{query}%"]. *)
Definition selects (pattern : string) (db : Store) (p : Patient.t) : bool :=
  Sql.ilike (Some (Patient.patient_name p)) pattern
  || Sql.ilike (Some (Patient.phone_number p)) pattern
  || Sql.ilike (Patient.treatment_type p) pattern
  || Sql.ilike (Patient.teeth_location p) pattern
  || existsb (λ a, Sql.ilike (Some (Appointment.treatment_type a)) pattern)
       (appointments_of p db).

(** [q.all()] *)
Definition all_patients (query : option string) (db : Store) : list Patient.t :=
  match query with
  | Some query =>
      if Text.truthy query
      then List.filter (selects ("%" +:+ query +:+ "%") db) (patients db)
      else patients db
  | None => patients db
  end.

(** [sorted(patient.appointments, key=lambda a: a.appointment_date)] *)
Definition appointments_sorted (p : Patient.t) (db : Store) : list Appointment.t :=
  sorted (λ a b, date_ltb (Appointment.appointment_date a) (Appointment.appointment_date b))
    (appointments_of p db).

Definition patient_rows (db : Store) (p : Patient.t) : list TreeRow :=
  let row := mkRow (Patient.patient_name p) (Patient.phone_number p)
               (or_empty (Patient.treatment_type p))
               (or_empty (Patient.teeth_location p)) in
  match appointments_of p db with
  | [] => [row None EmptyString EmptyString None EmptyString]
  | _ =>
      (λ app, row (Some (Appointment.appointment_date app))
                (Appointment.treatment_type app) (Appointment.dentist app)
                (Appointment.fee app) (or_empty (Appointment.notes app)))
      <$> appointments_sorted p db
  end.

Definition tree_rows (query : option string) (db : Store) : list TreeRow :=
  p ← all_patients query db; patient_rows db p.

(** The tree is cleared and filled inside the scope, before the commit. *)
Definition show_records (query : option string) (app : App) : result unit * App :=
  let fill : M (list TreeRow) := λ rows, (Ok (tree_rows query rows), rows) in
  match session_scope fill (store app) with
  | (Ok rows, db) => (Ok tt, {| store := db; tree := rows |})
  | (Raise e, db) => (Raise e, {| store := db; tree := tree_rows query (store app) |})
  end.

(** [search_records], with the text of the search entry *)
Definition search_records (search_entry : string) (app : App) : result unit * App :=
  show_records (Some (Text.strip search_entry)) app.

(** What a handler does after its unit of work succeeded: the message,
    then [self.show_records()], still inside the handler's [try]. *)
Definition report (info : Dialog) (app : App) : list Dialog * App :=
  match show_records None app with
  | (Ok _, app') => ([info], app')
  | (Raise e, app') => ([info; showerror "Error" (str_exn e)], app')
  end.

(** *** [add_patient_and_appointment_gui] *)

(** The widgets of the form, as the user left them. *)
Record AddWindow := mkAddWindow {
  name_entry : string;
  phone_entry : string;
  patient_treatment_entry : string;
  teeth_var : string;
  date_picker : Date;
  appointment_treatment_combobox : string;
  dentist_combobox : string;
  fee_entry : string;
  notes_entry : string
}.

(** The [with] block of [save]. *)
Definition save_unit (name phone patient_treatment teeth_location : string)
    (app_date : Date) (appointment_treatment dentist : string)
    (fee_val : option spec_float) (notes_val : string) : M unit :=
  let* found := query_first_by_phone phone in
  let* patient :=
    match found with
    | None => add_patient name phone (Some patient_treatment) (Some teeth_location)
    | Some patient =>
        set_patient patient name (Some patient_treatment) (Some teeth_location)
    end in
  add_appointment app_date appointment_treatment dentist fee_val (Some notes_val) patient.

Section Save.
Variable float : string → option spec_float.

Definition save (w : AddWindow) (app : App) : list Dialog * App :=
  let failed (msg : string) := ([showerror "Error" msg], app) in
  let name := Text.strip (name_entry w) in
  if negb (Text.truthy name) then failed "Patient name cannot be empty." else
  match Validate.validate_phone (Text.strip (phone_entry w)) with
  | None => failed "Invalid phone number."
  | Some phone =>
  if negb (Text.truthy phone) then failed "Invalid phone number." else
  let patient_treatment := Text.strip (patient_treatment_entry w) in
  let teeth_location := teeth_var w in
  let app_date := date_picker w in
  let appointment_treatment := Text.strip (appointment_treatment_combobox w) in
  if negb (Text.truthy appointment_treatment)
  then failed "Appointment treatment type is required." else
  let dentist := Text.strip (dentist_combobox w) in
  if negb (Text.truthy dentist) then failed "Dentist name is required." else
  let fee_val := Validate.validate_fee float (Text.strip (fee_entry w)) in
  let notes_val := Text.strip (notes_entry w) in
  match session_scope
          (save_unit name phone patient_treatment teeth_location app_date
             appointment_treatment dentist fee_val notes_val) (store app) with
  | (Raise e, db) => ([showerror "Error" (str_exn e)], {| store := db; tree := tree app |})
  | (Ok _, db) =>
      report (showinfo "Success"
                ("Patient '" +:+ name +:+ "' and appointment added successfully."))
        {| store := db; tree := tree app |}
  end
  end.
End Save.

(** *** [delete_patient_gui] *)

(** The [with] block: [true] when the patient was deleted, [false] when
    the user answered no and the handler returned. *)
Definition delete_unit (phone : string) (askyesno : bool) : M bool :=
  let* found := query_first_by_phone phone in
  match found with
  | None => raise (ValueError "Patient not found.")
  | Some patient =>
      if negb askyesno then ret false
      else let* _ := delete patient in ret true
  end.

(** [askstring] is what the phone dialog returns, [askyesno] the answer
    to the confirmation when it is asked. *)
Definition delete_patient_gui (askstring : option string) (askyesno : bool) (app : App)
  : list Dialog * App :=
  let failed (msg : string) := ([showerror "Error" msg], app) in
  match askstring with
  | None => ([], app)
  | Some phone =>
  match Validate.validate_phone (Text.strip phone) with
  | None => failed "Invalid phone number."
  | Some phone =>
  if negb (Text.truthy phone) then failed "Invalid phone number." else
  match session_scope (delete_unit phone askyesno) (store app) with
  | (Raise e, db) => ([showerror "Error" (str_exn e)], {| store := db; tree := tree app |})
  | (Ok false, db) => ([], {| store := db; tree := tree app |})
  | (Ok true, db) =>
      report (showinfo "Deleted" ("Patient with phone '" +:+ phone +:+ "' deleted."))
        {| store := db; tree := tree app |}
  end
  end
  end.

(** *** [modify_patient_gui] *)

(** The window that [modify_patient_gui] builds: the [patient] its
    [save_modifications] closes over, and the three inputs. *)
Record ModWindow := mkModWindow {
  patient : Patient.t;
  mod_name_entry : string;
  treatment_entry : string;
  mod_teeth_var : string
}.

(** The [with] block: it finds the patient and builds the window. Nothing
    is written in it. *)
Definition modify_unit (phone : string) : M ModWindow :=
  let* found := query_first_by_phone phone in
  match found with
  | None => raise (ValueError "Patient not found.")
  | Some patient =>
      ret (mkModWindow patient (Patient.patient_name patient)
             (or_empty (Patient.treatment_type patient))
             (or_empty (Patient.teeth_location patient)))
  end.

(** The handler returns once the window is built: the scope has committed
    and closed the session by then. *)
Definition modify_patient_gui (askstring : option string) (app : App)
  : list Dialog * App * option ModWindow :=
  let failed (msg : string) := ([showerror "Error" msg], app, None) in
  match askstring with
  | None => ([], app, None)
  | Some phone =>
  match Validate.validate_phone (Text.strip phone) with
  | None => failed "Invalid phone number."
  | Some phone =>
  if negb (Text.truthy phone) then failed "Invalid phone number." else
  match session_scope (modify_unit phone) (store app) with
  | (Raise e, db) =>
      ([showerror "Error" (str_exn e)], {| store := db; tree := tree app |}, None)
  | (Ok w, db) => ([], {| store := db; tree := tree app |}, Some w)
  end
  end
  end.

(** [save_modifications] is the command of the button "Save Changes": the
    event loop runs it after [modify_patient_gui] has returned. Its
    [patient] belongs to the closed session, so the three assignments
    change that object and no row; no session is opened for them. [w] has
    the inputs as the user left them. *)
Definition save_modifications (w : ModWindow) (app : App)
  : list Dialog * App * ModWindow :=
  let new_name := Text.strip (mod_name_entry w) in
  if negb (Text.truthy new_name)
  then ([showerror "Error" "Patient name cannot be empty."], app, w)
  else
    let patient' := assign new_name (Some (Text.strip (treatment_entry w)))
                      (Some (mod_teeth_var w)) (patient w) in
    let '(dialogs, app') := report (showinfo "Success" "Patient details updated.") app in
    (dialogs, app',
     mkModWindow patient' (mod_name_entry w) (treatment_entry w) (mod_teeth_var w)).

(** ** The wording of the specification, for the comparison with the code *)

(** The search term is free of the two wildcards of [LIKE]. *)
Definition wildcard_free (term : string) : Prop :=
  Text.mem "%" term = false ∧ Text.mem "_" term = false.

(** [text] contains [term], the letters A to Z compared without case; a
    missing text contains nothing. *)
Definition icontains (term : string) (text : option string) : bool :=
  match text with
  | Some text => Text.contains (Sql.lower term) (Sql.lower text)
  | None => false
  end.

(** The name, the phone, the treatment type, the teeth location or the
    treatment type of an appointment of [p] contains [term]. *)
Definition found_in (term : string) (db : Store) (p : Patient.t) : bool :=
  icontains term (Some (Patient.patient_name p))
  || icontains term (Some (Patient.phone_number p))
  || icontains term (Patient.treatment_type p)
  || icontains term (Patient.teeth_location p)
  || existsb (λ a, icontains term (Some (Appointment.treatment_type a)))
       (appointments_of p db).

(** The specification's [searchPatients]: every patient for an empty or
    absent term, otherwise the patients in which the term is found. *)
Definition searchPatients (term : option string) (db : Store) : list Patient.t :=
  match term with
  | None => patients db
  | Some term =>
      match term with
      | EmptyString => patients db
      | _ => List.filter (found_in term db) (patients db)
      end
  end.

(** The patient that the [with] block of [save] ends with, and the rows
    it leaves. *)
Section Saved.
Variables (name phone patient_treatment teeth_location : string)
          (app_date : Date) (appointment_treatment dentist : string)
          (fee_val : option spec_float) (notes_val : string).

Definition saved_patient (db : Store) : Patient.t :=
  match first_by_phone phone db with
  | None => Patient.mk (next_id (Patient.id <$> patients db)) name phone
              (Some patient_treatment) (Some teeth_location)
  | Some p => assign name (Some patient_treatment) (Some teeth_location) p
  end.

Definition saved_patients (db : Store) : list Patient.t :=
  match first_by_phone phone db with
  | None => patients db ++ [saved_patient db]
  | Some p => overwrite name (Some patient_treatment) (Some teeth_location) p
                (patients db)
  end.

Definition saved_rows (db : Store) : Store :=
  {| patients := saved_patients db;
     appointments :=
       appointments db
       ++ [Appointment.mk (next_id (Appointment.id <$> appointments db))
             app_date appointment_treatment dentist fee_val (Some notes_val)
             (Some (Patient.id (saved_patient db)))] |}.
End Saved.

(** The patient rows keyed by [phone]. *)
Definition keyed_by (phone : string) (db : Store) : list Patient.t :=
  filter (λ r, Patient.phone_number r = phone) (patients db).

(** Ascending dates. *)
Definition date_le (a b : Appointment.t) : Prop :=
  date_ltb (Appointment.appointment_date b) (Appointment.appointment_date a) = false.

(** ** Data for the examples *)

(** Three points of the graph of [float]: "25.5", "-1" and "0"; every
    other string stands for one that [float] refuses. *)
Definition float_table (s : string) : option spec_float :=
  if String.eqb s "25.5" then Some (S754_finite false 7177611906121728 (-48))
  else if String.eqb s "-1" then Some (S754_finite true 4503599627370496 (-52))
  else if String.eqb s "0" then Some (S754_zero false)
  else None.

(** -1.0 *)
Definition minus_one : spec_float := S754_finite true 4503599627370496 (-52).

Definition Ann : Patient.t := Patient.mk 1 "Ann" "+10000000" (Some "Cleaning") None.
Definition Bob : Patient.t := Patient.mk 2 "Bob" "+20000000" (Some "Filling") None.

Definition visit (id : Z) (d : Date) (treatment : string) (patient_id : Z) : Appointment.t :=
  Appointment.mk id d treatment "Noha" None (Some "") (Some patient_id).

Definition clinic : Store :=
  {| patients := [Ann; Bob];
     appointments := [visit 1 (mkDate 2025 3 9) "Filling" 1;
                      visit 2 (mkDate 2025 1 20) "Cleaning" 1;
                      visit 3 (mkDate 2025 2 1) "Crown" 2] |}.

(** A unit of work that writes and then fails. *)
Definition delete_then_raise : M unit :=
  let* _ := delete Ann in raise (ValueError "late").



(** ** The selector in use *)

(** A click on a button of the selector: the quadrant and the number that
    the button was made with. A [KeyError] ends the clicks. *)
Definition press (selected_teeth : option (gset string)) (button : string * Z)
  : option (gset string) :=
  match selected_teeth with
  | Some selected => Teeth.toggle_tooth button.1 button.2 selected
  | None => None
  end.

(** The selector opened on [initial_selection], the buttons clicked in
    turn, then OK: the string that the callback receives. *)
Definition select_teeth (initial_selection : string) (clicks : list (string * Z))
  : option string :=
  Teeth.on_ok <$> foldl press (Some (Teeth.open_teeth_selector initial_selection)) clicks.

(** The buttons that the selector has: a quadrant of [quadrant_info] and a
    number from 1 to 8. *)
Definition is_button (button : string * Z) : Prop :=
  button.1 ∈ Teeth.quadrant_info ∧ 1 ≤ button.2 ≤ 8.

(** [Teeth.token], as a test. *)
Definition tokenb (t : string) : bool :=
  Text.truthy t
  && negb (Text.mem "," t)
  && match Text.first_char t with
     | Some c => negb (Text.is_space c)
     | None => true
     end
  && match Text.last_char t with
     | Some c => negb (Text.is_space c)
     | None => true
     end.

(** ** The shape of a phone *)

Fixpoint all_digits (s : string) : bool :=
  match s with
  | EmptyString => true
  | String c s' => Validate.is_digit c && all_digits s'
  end.

(** An optional [+], then 8 to 15 digits, and nothing else. *)
Definition phone_shape (s : string) : bool :=
  let digits := match s with
                | String "+" d => d
                | _ => s
                end in
  all_digits digits
  && (8 <=? String.length digits)%nat && (String.length digits <=? 15)%nat.

(** ** The handlers as the events of the main window *)

Inductive event :=
| SaveClicked (w : AddWindow)
| DeleteClicked (askstring : option string) (askyesno : bool)
| ModifyClicked (askstring : option string)
| SaveChangesClicked (w : ModWindow)
| SearchClicked (search_entry : string)
| RefreshClicked.

Section Events.
Variable float : string → option spec_float.

(** The application after the handler of the event has run. *)
Definition handle (app : App) (ev : event) : App :=
  match ev with
  | SaveClicked w => snd (save float w app)
  | DeleteClicked askstring askyesno => snd (delete_patient_gui askstring askyesno app)
  | ModifyClicked askstring => snd (fst (modify_patient_gui askstring app))
  | SaveChangesClicked w => snd (fst (save_modifications w app))
  | SearchClicked search_entry => snd (search_records search_entry app)
  | RefreshClicked => snd (show_records None app)
  end.

Definition handle_all (app : App) (evs : list event) : App := foldl handle app evs.
End Events.

(** Every appointment has its patient among the rows. *)
Definition owned (db : Store) : Prop :=
  ∀ a, a ∈ appointments db →
       ∃ p, p ∈ patients db ∧ Appointment.patient_id a = Some (Patient.id p).

(** No appointment has a fee below zero, or one that is not a number. *)
Definition fees_ok (db : Store) : Prop :=
  ∀ a f, a ∈ appointments db → Appointment.fee a = Some f → Validate.ge_zero f = true.

(** Every phone has the shape of a phone. *)
Definition phones_ok (db : Store) : Prop :=
  ∀ p, p ∈ patients db → phone_shape (Patient.phone_number p) = true.

(** The rows of the unit of work, for a form that passes the checks. *)
Definition form_rows (float : string → option spec_float) (w : AddWindow)
    (phone : string) (db : Store) : Store :=
  saved_rows (Text.strip (name_entry w)) phone (Text.strip (patient_treatment_entry w))
    (teeth_var w) (date_picker w) (Text.strip (appointment_treatment_combobox w))
    (Text.strip (dentist_combobox w))
    (Validate.validate_fee float (Text.strip (fee_entry w)))
    (Text.strip (notes_entry w)) db.

(** ** [auto_refresh] *)

#[global] Instance Date_eq_dec : EqDecision Date.
Proof. solve_decision. Defined.

(** [session.query(Appointment)
      .filter(Appointment.appointment_date == today_date).all()] *)
Definition apps_on (today_date : Date) (db : Store) : list Appointment.t :=
  filter (λ a, Appointment.appointment_date a = today_date) (appointments db).

(** [auto_refresh], with the value of [date.today()]. Next to the
    application it returns the message that it logs, if it logs one. Its
    last line asks the event loop for the next call in 60 seconds; an
    exception before that line leaves the handler. *)
Definition auto_refresh (today_date : Date) (app : App) : result (option string) * App :=
  match show_records None app with
  | (Raise e, app') => (Raise e, app')
  | (Ok _, app') =>
      match session_scope (λ rows, (Ok (apps_on today_date rows), rows)) (store app') with
      | (Raise e, db) => (Raise e, {| store := db; tree := tree app' |})
      | (Ok apps_today, db) =>
          (Ok match apps_today with
              | [] => None
              | _ => Some ("There are "
                           +:+ Text.str_int (Z.of_nat (length apps_today))
                           +:+ " appointment(s) scheduled for today.")
              end,
           {| store := db; tree := tree app' |})
      end
  end.

(** ** Data for the examples, continued *)

(** The application on an empty data base. *)
Definition start : App := mkApp (mkStore [] []) [].

(** An afternoon at the desk: Ann is added with a fee, added again under
    another name, a form with a bad phone is refused, Bob is added with a
    fee that is refused, Ann is looked up to be modified, and deleted. *)
Definition afternoon : list event :=
  [SaveClicked (mkAddWindow "Ann" "+10000000" "Cleaning" "" (mkDate 2025 1 20)
                  "Cleaning" "Noha" "25.5" "");
   SaveClicked (mkAddWindow "Ann B" " +10000000 " "Crown" "UL1" (mkDate 2025 2 3)
                  "Crown" "Essam" "0" "second visit");
   SaveClicked (mkAddWindow "Eve" "12345" "" "" (mkDate 2025 2 3) "Other" "Noha" "" "");
   SaveClicked (mkAddWindow "Bob" "20000000" "Filling" "" (mkDate 2025 2 3)
                  "Filling" "Mohamed" "-1" "");
   SearchClicked "fill";
   ModifyClicked (Some "+10000000");
   DeleteClicked (Some "+10000000") true;
   RefreshClicked].


(** Three more points of the graph of [float]: "nan", "inf" and "-0". *)
Definition float_special (s : string) : option spec_float :=
  if String.eqb s "nan" then Some S754_nan
  else if String.eqb s "inf" then Some (S754_infinity false)
  else if String.eqb s "-0" then Some (S754_zero true)
  else None.
(** * Properties *)

(** ** The functions on small inputs *)

Example validate_phone_accepts :
  Validate.validate_phone "+201234567890" = Some "+201234567890".
Proof. reflexivity. Qed.

Example validate_phone_rejects :
  Validate.validate_phone "123" = None ∧ Validate.validate_phone "12345678a" = None.
Proof. split; reflexivity. Qed.

Example split_pieces : Text.split "," "UL1, UR2,,x " = ["UL1"; " UR2"; ""; "x "].
Proof. reflexivity. Qed.

Example strip_both_ends : Text.strip "  LR3 " = "LR3".
Proof. reflexivity. Qed.

Example buttons_count : length Teeth.buttons = 32%nat ∧ head Teeth.buttons = Some "UL1".
Proof. split; reflexivity. Qed.

Example open_then_ok :
  Teeth.on_ok (Teeth.open_teeth_selector "UL8, LL1,LR3 ,") = "LL1, LR3, UL8".
Proof. by vm_compute. Qed.

Example like_wildcards :
  Sql.like "%a_c%" "xxabcx" = true ∧ Sql.like "%a_c%" "xxacx" = false.
Proof. split; reflexivity. Qed.

Example clinic_rows_by_date :
  col_appointment_date <$> tree_rows (Some "ann") clinic
  = [Some (mkDate 2025 1 20); Some (mkDate 2025 3 9)].
Proof. reflexivity. Qed.

(** ** Sorting *)

Section SortedFacts.
Context {A : Type} (lt : A → A → bool).

Lemma insort_Permutation x l : insort lt x l ≡ₚ x :: l.
Proof.
  induction l as [|y l IH]; simpl; [done|].
  destruct (lt y x); [|done].
  rewrite IH. apply perm_swap.
Qed.

Lemma sorted_Permutation l : sorted lt l ≡ₚ l.
Proof.
  induction l as [|x l IH]; simpl; [done|].
  rewrite insort_Permutation. by f_equiv.
Qed.

Lemma elem_of_sorted x l : x ∈ sorted lt l ↔ x ∈ l.
Proof. by rewrite sorted_Permutation. Qed.

(** [lt] is a strict weak order: asymmetric, and its complement is
    transitive. *)
Hypothesis lt_asym : ∀ a b, lt a b = true → lt b a = false.
Hypothesis le_trans : ∀ a b c, lt b a = false → lt c b = false → lt c a = false.

Let le (a b : A) : Prop := lt b a = false.

Lemma insort_StronglySorted x l :
  StronglySorted le l → StronglySorted le (insort lt x l).
Proof.
  induction 1 as [|y l Hl IH Hy]; simpl.
  - repeat constructor.
  - destruct (lt y x) eqn:E.
    + constructor; [done|].
      rewrite insort_Permutation. constructor; [|done].
      by apply lt_asym.
    + constructor; [by constructor|].
      constructor; [done|].
      eapply Forall_impl; [exact Hy|].
      intros z Hz. by eapply le_trans.
Qed.

Lemma sorted_StronglySorted l : StronglySorted le (sorted lt l).
Proof.
  induction l; simpl; [constructor | by apply insort_StronglySorted].
Qed.
End SortedFacts.

(** ** The order of [str] *)

Lemma ltb_asym (a b : string) : String.ltb a b = true → String.ltb b a = false.
Proof.
  unfold String.ltb. rewrite (String.compare_antisym a b).
  by destruct (String.compare b a).
Qed.

Lemma ltb_false_leb (a b : string) : String.ltb b a = false ↔ String.leb a b = true.
Proof.
  unfold String.ltb, String.leb. rewrite (String.compare_antisym a b).
  by destruct (String.compare b a).
Qed.

Lemma ltb_le_trans (a b c : string) :
  String.ltb b a = false → String.ltb c b = false → String.ltb c a = false.
Proof.
  rewrite !ltb_false_leb. intros H1 H2.
  apply Is_true_true. change (String.le a c).
  transitivity b; apply Is_true_true; done.
Qed.

Lemma ltb_irrefl (a : string) : String.ltb a a = false.
Proof. destruct (String.ltb a a) eqn:E; [|done]. by rewrite (ltb_asym _ _ E) in E. Qed.

Lemma leb_ne_ltb (a b : string) : String.ltb b a = false → a ≠ b → String.ltb a b = true.
Proof.
  unfold String.ltb. rewrite (String.compare_antisym a b).
  destruct (String.compare b a) eqn:E; try done.
  apply String.compare_eq_iff in E. done.
Qed.

(** A sorted list without repetition is strictly increasing. *)
Lemma StronglySorted_strict (l : list string) :
  NoDup l →
  StronglySorted (λ a b, String.ltb b a = false) l →
  StronglySorted (λ a b, String.ltb a b = true) l.
Proof.
  induction 2 as [|x l Hl IH Hx]; constructor.
  - apply IH. by eapply NoDup_cons_1_2.
  - apply Forall_forall. intros y Hy.
    apply leb_ne_ltb; [by eapply Forall_forall in Hx|].
    intros ->. by apply NoDup_cons_1_1 in H.
Qed.

(** ** [strip], [split] and [join] *)

Module TextFacts.
Import Text.

Lemma truthy_true s : truthy s = true ↔ s ≠ EmptyString.
Proof. by destruct s. Qed.

Lemma truthy_false s : truthy s = false ↔ s = EmptyString.
Proof. by destruct s. Qed.

Lemma lstrip_id s :
  (∀ c, first_char s = Some c → is_space c = false) → lstrip s = s.
Proof.
  destruct s as [|c s]; simpl; [done|].
  intros H. by rewrite (H c eq_refl).
Qed.

Lemma rstrip_id s :
  (∀ c, last_char s = Some c → is_space c = false) → rstrip s = s.
Proof.
  induction s as [|c s IH]; simpl; [done|].
  intros H. destruct s as [|d s].
  - simpl. by rewrite (H c eq_refl).
  - rewrite IH; [done|]. exact H.
Qed.

Lemma strip_id s :
  (∀ c, first_char s = Some c → is_space c = false) →
  (∀ c, last_char s = Some c → is_space c = false) →
  strip s = s.
Proof. intros H1 H2. unfold strip. rewrite lstrip_id by done. by apply rstrip_id. Qed.

(** A space in front of a clean token is stripped away. *)
Lemma strip_space s :
  (∀ c, first_char s = Some c → is_space c = false) →
  (∀ c, last_char s = Some c → is_space c = false) →
  strip (String " " s) = s.
Proof. intros H1 H2. unfold strip. simpl. rewrite lstrip_id by done. by apply rstrip_id. Qed.

Lemma app_cons c (s1 s2 : string) : String c s1 +:+ s2 = String c (s1 +:+ s2).
Proof. reflexivity. Qed.

Lemma app_nil (s : string) : EmptyString +:+ s = s.
Proof. reflexivity. Qed.

Lemma split_nonempty sep s : split sep s ≠ [].
Proof.
  induction s as [|c s IH]; simpl; [done|].
  destruct (Ascii.eqb c sep); [done|]. by destruct (split sep s).
Qed.

(** Without a separator in it, a string is one piece. *)
Lemma split_app_no_sep sep t rest piece pieces :
  mem sep t = false →
  split sep rest = piece :: pieces →
  split sep (t +:+ rest) = (t +:+ piece) :: pieces.
Proof.
  intros Ht Hrest. induction t as [|c t IH]; [done|].
  simpl in Ht. apply orb_false_iff in Ht as [Hc Ht].
  rewrite Ascii.eqb_sym in Hc. rewrite !app_cons. simpl.
  rewrite Hc, (IH Ht). done.
Qed.

Lemma split_no_sep sep t : mem sep t = false → split sep t = [t].
Proof.
  intros Ht. induction t as [|c t IH]; simpl in *; [done|].
  apply orb_false_iff in Ht as [Hc Ht].
  rewrite Ascii.eqb_sym in Hc. by rewrite Hc, (IH Ht).
Qed.

Lemma app_empty_r (s : string) : s +:+ EmptyString = s.
Proof. induction s as [|c s IH]; [done|]. by rewrite app_cons, IH. Qed.

(** The pieces of [", ".join(l)]: the first token, and each other one
    behind a space. *)
Lemma split_join t l :
  Forall (λ t, mem "," t = false) (t :: l) →
  split "," (join ", " (t :: l)) = t :: (String " " <$> l).
Proof.
  revert t. induction l as [|u l IH]; intros t Hl.
  - simpl. apply split_no_sep. by inversion Hl.
  - inversion Hl as [|?? Ht Hl']; subst.
    change (join ", " (t :: u :: l)) with (t +:+ String "," (String " " (join ", " (u :: l)))).
    specialize (IH u Hl'). remember (join ", " (u :: l)) as rest.
    erewrite split_app_no_sep; [|done|].
    2:{ simpl. rewrite IH. reflexivity. }
    by rewrite app_empty_r.
Qed.

Lemma join_nonempty sep t l : t ≠ EmptyString → join sep (t :: l) ≠ EmptyString.
Proof. destruct t; [done|]. by destruct l. Qed.

End TextFacts.

(** ** The teeth selector *)

Module TeethFacts.
Import Text TextFacts Teeth.

Lemma toggle_toggle t (S : gset string) : toggle t (toggle t S) = S.
Proof.
  unfold toggle. destruct (decide (t ∈ S)) as [Hin|Hout].
  - rewrite decide_False by set_solver.
    apply set_eq. intros x. destruct (decide (x = t)); set_solver.
  - rewrite decide_True by set_solver. set_solver.
Qed.

Lemma elem_of_toggle t (S : gset string) x :
  x ∈ toggle t S ↔ (x = t ∧ t ∉ S) ∨ (x ≠ t ∧ x ∈ S).
Proof.
  unfold toggle. destruct (decide (t ∈ S)); destruct (decide (x = t)); set_solver.
Qed.

(** Each of the 32 buttons toggles its own identifier. *)
Lemma toggle_tooth_button qabbr num S :
  tooth_id qabbr num ∈ buttons →
  toggle_tooth qabbr num S = Some (toggle (tooth_id qabbr num) S).
Proof. intros H. unfold toggle_tooth. by rewrite decide_True. Qed.

Lemma sorted_elements_strict (S : gset string) :
  StronglySorted (λ a b, String.ltb a b = true) (sorted String.ltb (elements S)).
Proof.
  apply StronglySorted_strict.
  - rewrite sorted_Permutation. apply NoDup_elements.
  - apply sorted_StronglySorted; [apply ltb_asym | apply ltb_le_trans].
Qed.

Lemma foldl_add_tooth_spaced acc (l : list string) :
  Forall token l →
  foldl add_tooth acc (String " " <$> l) = acc ∪ list_to_set l.
Proof.
  revert acc. induction l as [|t l IH]; intros acc Hl; simpl.
  - set_solver.
  - inversion Hl as [|?? (Hne & _ & Hf & Hl') Hl'']; subst.
    rewrite IH by done. unfold add_tooth.
    rewrite strip_space by done.
    apply truthy_true in Hne. rewrite Hne. set_solver.
Qed.

Lemma open_join (t : string) (l : list string) :
  Forall token (t :: l) →
  open_teeth_selector (join ", " (t :: l)) = list_to_set (t :: l).
Proof.
  intros Hl. unfold open_teeth_selector.
  inversion Hl as [|?? (Hne & Hc & Hf & Hlast) Hl']; subst.
  pose proof (join_nonempty ", " t l Hne) as Hj.
  apply truthy_true in Hj. rewrite Hj.
  rewrite split_join.
  2:{ eapply Forall_impl; [exact Hl|]. by intros ? (_ & ? & _). }
  simpl. rewrite foldl_add_tooth_spaced by done.
  unfold add_tooth. rewrite strip_id by done.
  apply truthy_true in Hne. rewrite Hne. set_solver.
Qed.

End TeethFacts.

(** C6. For every string [s] handed to the selector and every token [t]:
    toggling [t] twice on the parsed set and pressing OK gives the same
    string as pressing OK at once; and [toggle] takes [t] out when it is
    in the set, puts it in when it is not, and changes nothing else. *)
Theorem toggle_twice_serializes_the_same (s t : string) :
  Teeth.on_ok (Teeth.toggle t (Teeth.toggle t (Teeth.open_teeth_selector s)))
  = Teeth.on_ok (Teeth.open_teeth_selector s)
  ∧ ∀ (S : gset string) (x : string),
      x ∈ Teeth.toggle t S ↔ (x = t ∧ t ∉ S) ∨ (x ≠ t ∧ x ∈ S).
Proof.
  split.
  - by rewrite TeethFacts.toggle_toggle.
  - intros S x. apply TeethFacts.elem_of_toggle.
Qed.

(** C8. For every finite set of tokens, OK hands back the tokens of the
    set, each once, in strictly increasing lexicographic order, joined
    with [", "]; the set of LR3, UL8 and LL1 gives "LL1, LR3, UL8". *)
Theorem on_ok_sorts_and_joins (S : gset string) :
  (∃ l : list string,
     Teeth.on_ok S = Text.join ", " l
     ∧ StronglySorted (λ a b, String.ltb a b = true) l
     ∧ ∀ t, t ∈ l ↔ t ∈ S)
  ∧ Teeth.on_ok {[ "LR3"; "UL8"; "LL1" ]} = "LL1, LR3, UL8".
Proof.
  split.
  - exists (sorted String.ltb (elements S)). split; [done|]. split.
    + apply TeethFacts.sorted_elements_strict.
    + intros t. rewrite elem_of_sorted. apply elem_of_elements.
  - vm_compute. reflexivity.
Qed.

(** C10. For every finite set [T] of tokens that are not empty, hold no
    comma and have no whitespace at either end, the selector opened on
    the string that OK returns for [T] has exactly the set [T]. *)
Theorem parse_serialize_roundtrip (T : gset string) :
  (∀ t, t ∈ T → Teeth.token t) →
  Teeth.open_teeth_selector (Teeth.on_ok T) = T.
Proof.
  intros HT. unfold Teeth.on_ok.
  assert (Hperm : sorted String.ltb (elements T) ≡ₚ elements T)
    by apply sorted_Permutation.
  assert (Htok : Forall Teeth.token (sorted String.ltb (elements T))).
  { apply Forall_forall. intros t Ht. apply HT.
    rewrite Hperm in Ht. by apply elem_of_elements. }
  destruct (sorted String.ltb (elements T)) as [|t l] eqn:E.
  - simpl. apply Permutation_nil_l in Hperm. symmetry in Hperm.
    apply elements_empty_inv in Hperm. symmetry. by apply leibniz_equiv.
  - rewrite TeethFacts.open_join by done.
    rewrite Hperm. apply list_to_set_elements_L.
Qed.

Lemma parse_serialize_roundtrip_witness :
  (∀ t, t ∈ ({[ "UL8"; "LL1" ]} : gset string) → Teeth.token t)
  ∧ Teeth.open_teeth_selector "LL1, UL8" = {[ "UL8"; "LL1" ]}.
Proof.
  assert (H : ∀ t, t ∈ ({[ "UL8"; "LL1" ]} : gset string) → Teeth.token t).
  { intros t Ht.
    assert (t = "UL8" ∨ t = "LL1") as [-> | ->] by set_solver;
      (split; [done|]; split; [reflexivity|]; split; intros c [= <-]; reflexivity). }
  split; [exact H|].
  exact (parse_serialize_roundtrip {[ "UL8"; "LL1" ]} H).
Defined.

(** ** The fee *)

Lemma negative_not_ge_zero (f : spec_float) :
  SFltb f (S754_zero false) = true → Validate.ge_zero f = false.
Proof.
  unfold Validate.ge_zero, SFltb, SFleb.
  destruct f as [s| [] | |[] m e]; simpl; try done.
Qed.

(** C9. Whatever Python's [float] is: when it gives a value that is at
    least zero, [validate_fee] returns that value; when it gives a value
    below zero, or refuses the string, [validate_fee] returns [None]. *)
Theorem validate_fee_returns (float : string → option spec_float) (fee : string) :
  (∀ f, float fee = Some f → SFleb (S754_zero false) f = true →
        Validate.validate_fee float fee = Some f)
  ∧ (∀ f, float fee = Some f → SFltb f (S754_zero false) = true →
          Validate.validate_fee float fee = None)
  ∧ (float fee = None → Validate.validate_fee float fee = None).
Proof.
  unfold Validate.validate_fee. repeat split.
  - intros f -> Hf. unfold Validate.ge_zero. by rewrite Hf.
  - intros f -> Hf. by rewrite negative_not_ge_zero.
  - by intros ->.
Qed.

Lemma validate_fee_returns_witness :
  Validate.validate_fee float_table "25.5" = Some (S754_finite false 7177611906121728 (-48))
  ∧ Validate.validate_fee float_table "-1" = None
  ∧ Validate.validate_fee float_table "abc" = None.
Proof.
  split; [|split].
  - apply (proj1 (validate_fee_returns float_table "25.5")); reflexivity.
  - apply (proj1 (proj2 (validate_fee_returns float_table "-1"))
             (S754_finite true 4503599627370496 (-52))); reflexivity.
  - apply (proj2 (proj2 (validate_fee_returns float_table "abc"))); reflexivity.
Defined.

(** ** [LIKE] on a term without wildcards *)

Module SqlFacts.
Import Text Sql.

Lemma like_percent t : like "%" t = true.
Proof. induction t as [|c t IH]; [done|]. exact IH. Qed.

Lemma like_any q t :
  like (String "%" q) t
  = like q t || match t with
                | EmptyString => false
                | String _ t' => like (String "%" q) t'
                end.
Proof. by destruct t. Qed.

Lemma like_literal c p t :
  Ascii.eqb "%" c = false → Ascii.eqb "_" c = false →
  like (String c p) t
  = match t with
    | EmptyString => false
    | String d t' => Ascii.eqb c d && like p t'
    end.
Proof. destruct c as [[] [] [] [] [] [] [] []]; done. Qed.

Lemma like_startswith p t :
  mem "%" p = false → mem "_" p = false →
  like (p +:+ "%") t = startswith p t.
Proof.
  revert t. induction p as [|c p IH]; intros t H1 H2.
  - apply like_percent.
  - simpl in H1, H2.
    apply orb_false_iff in H1 as [Hc1 H1]. apply orb_false_iff in H2 as [Hc2 H2].
    rewrite TextFacts.app_cons, like_literal by done.
    destruct t as [|d t]; [done|]. simpl. by rewrite IH.
Qed.

Lemma like_contains p t :
  wildcard_free p → like (String "%" (p +:+ "%")) t = contains p t.
Proof.
  intros [H1 H2]. induction t as [|d t IH].
  - rewrite like_any, like_startswith by done. by destruct p.
  - rewrite like_any, like_startswith, IH by done. reflexivity.
Qed.

Lemma lower_app s1 s2 : lower (s1 +:+ s2) = lower s1 +:+ lower s2.
Proof.
  induction s1 as [|c s1 IH]; [done|].
  rewrite TextFacts.app_cons. simpl. by rewrite IH.
Qed.

Lemma lower_char_percent c : Ascii.eqb "%" (lower_char c) = Ascii.eqb "%" c.
Proof. by destruct c as [[] [] [] [] [] [] [] []]. Qed.

Lemma lower_char_underscore c : Ascii.eqb "_" (lower_char c) = Ascii.eqb "_" c.
Proof. by destruct c as [[] [] [] [] [] [] [] []]. Qed.

Lemma wildcard_free_lower term : wildcard_free term → wildcard_free (lower term).
Proof.
  unfold wildcard_free. induction term as [|c term IH]; [done|].
  cbn [mem lower]. rewrite lower_char_percent, lower_char_underscore.
  intros [[? ?]%orb_false_iff [? ?]%orb_false_iff].
  destruct IH as [-> ->]; [done|]. by rewrite !orb_false_r.
Qed.

(** On a term without wildcards, [ilike] with [%term%] is containment. *)
Lemma ilike_icontains term column :
  wildcard_free term →
  ilike column ("%" +:+ term +:+ "%") = icontains term column.
Proof.
  intros Hterm. destruct column as [text|]; [|done].
  unfold ilike, icontains.
  change ("%" +:+ term +:+ "%") with (String "%" (term +:+ "%")).
  cbn [lower]. rewrite lower_app.
  change (lower_char "%") with "%"%char. change (lower "%") with "%".
  apply (like_contains (lower term)). by apply wildcard_free_lower.
Qed.

End SqlFacts.

(** ** The order of dates *)

Ltac date_cases :=
  unfold date_ltb; simpl;
  repeat match goal with
         | |- context [(?a <? ?b)] => destruct (Z.ltb_spec a b)
         | |- context [(?a =? ?b)] => destruct (Z.eqb_spec a b)
         | H : context [(?a <? ?b)] |- _ => destruct (Z.ltb_spec a b)
         | H : context [(?a =? ?b)] |- _ => destruct (Z.eqb_spec a b)
         end;
  simpl in *; try done; try lia.

Lemma date_ltb_asym (a b : Date) : date_ltb a b = true → date_ltb b a = false.
Proof. destruct a, b. date_cases. Qed.

Lemma date_le_trans (a b c : Date) :
  date_ltb b a = false → date_ltb c b = false → date_ltb c a = false.
Proof. destruct a, b, c. date_cases. Qed.

(** ** [show_records] *)

Module SearchFacts.

Lemma selects_found_in term db p :
  wildcard_free term →
  selects ("%" +:+ term +:+ "%") db p = found_in term db p.
Proof.
  intros Hterm. unfold selects, found_in.
  rewrite !SqlFacts.ilike_icontains by done.
  f_equal.
  induction (appointments_of p db) as [|a l IH]; [done|]. cbn [existsb].
  rewrite IH. f_equal. by apply (SqlFacts.ilike_icontains term (Some _)).
Qed.

Lemma all_patients_search query db :
  (∀ term, query = Some term → wildcard_free term) →
  all_patients query db = searchPatients query db.
Proof.
  intros Hq. destruct query as [[|c term]|]; try done.
  unfold all_patients, searchPatients. simpl Text.truthy. cbv iota.
  induction (patients db) as [|p l IH]; [done|]. cbn [List.filter].
  rewrite selects_found_in by (by apply Hq). by rewrite IH.
Qed.

Lemma appointments_sorted_ascending p db :
  StronglySorted date_le (appointments_sorted p db).
Proof.
  apply (sorted_StronglySorted
           (λ a b, date_ltb (Appointment.appointment_date a)
                            (Appointment.appointment_date b))).
  - intros a b. apply date_ltb_asym.
  - intros a b c. apply date_le_trans.
Qed.

Lemma session_scope_read {A} (f : Store → A) db :
  snd (session_scope (λ rows, (Ok (f rows), rows)) db) = db.
Proof.
  unfold session_scope, run, commit, rollback. simpl. by destruct (decide _).
Qed.

Lemma show_records_app query app :
  snd (show_records query app)
  = {| store := store app; tree := tree_rows query (store app) |}.
Proof.
  unfold show_records, session_scope, run, commit, rollback. simpl.
  by destruct (decide _).
Qed.

Lemma show_records_ok query app :
  constraints (store app) → fst (show_records query app) = Ok tt.
Proof.
  intros H. unfold show_records, session_scope, run, commit, rollback. simpl.
  by rewrite decide_True.
Qed.

End SearchFacts.

(** C7, as the code has it. For every search term without the wildcards
    [%] and [_] of [LIKE]: an empty or absent term shows every patient; any
    other term shows exactly the patients whose name, phone, treatment
    type, teeth location or treatment type of an appointment contains the
    term, the letters A to Z compared without case; and the lines of each
    shown patient run through the appointments of that patient in
    ascending order of date. *)
Theorem show_records_search (query : option string) (app : App) :
  (∀ term, query = Some term → wildcard_free term) →
  all_patients query (store app) = searchPatients query (store app)
  ∧ snd (show_records query app)
    = {| store := store app;
         tree := p ← all_patients query (store app); patient_rows (store app) p |}
  ∧ ∀ p : Patient.t,
      StronglySorted date_le (appointments_sorted p (store app))
      ∧ appointments_sorted p (store app) ≡ₚ appointments_of p (store app)
      ∧ (appointments_of p (store app) ≠ [] →
         col_appointment_date <$> patient_rows (store app) p
         = (λ a, Some (Appointment.appointment_date a))
           <$> appointments_sorted p (store app)).
Proof.
  intros Hq. split; [by apply SearchFacts.all_patients_search|].
  split; [apply SearchFacts.show_records_app|].
  intros p. split; [apply SearchFacts.appointments_sorted_ascending|].
  split; [apply sorted_Permutation|].
  intros Hne. unfold patient_rows.
  destruct (appointments_of p (store app)) eqn:E; [done|].
  by rewrite <- list_fmap_compose.
Qed.

(** The search scenario of the specification: "clean" finds Ann only. *)
Lemma show_records_search_witness :
  (∀ term, Some "clean" = Some term → wildcard_free term)
  ∧ all_patients (Some "clean") (mkStore [Ann; Bob] []) = [Ann].
Proof.
  assert (H : ∀ term, Some "clean" = Some term → wildcard_free term).
  { intros term [= <-]. split; reflexivity. }
  split; [exact H|].
  transitivity (searchPatients (Some "clean") (mkStore [Ann; Bob] [])).
  - exact (proj1 (show_records_search (Some "clean") (mkApp (mkStore [Ann; Bob] []) []) H)).
  - reflexivity.
Defined.

(** C7 as stated fails on a term with a wildcard: the term [_] shows Ann
    and Bob, and no text of theirs contains an underscore. *)
Lemma show_records_wildcard_counterexample :
  all_patients (Some "_") clinic = [Ann; Bob]
  ∧ searchPatients (Some "_") clinic = []
  ∧ all_patients (Some "_") clinic ≠ searchPatients (Some "_") clinic.
Proof. split; [reflexivity|]. split; [reflexivity|]. discriminate. Qed.

(** ** Rows, keys and constraints *)

Module StoreFacts.

Lemma le_max_list x (ids : list Z) : x ∈ ids → x ≤ foldr Z.max 0 ids.
Proof.
  induction 1 as [x l|x y l _ IH]; simpl; lia.
Qed.

Lemma next_id_fresh (ids : list Z) : next_id ids ∉ ids.
Proof. intros H%le_max_list. unfold next_id in H. lia. Qed.

Lemma NoDup_snoc {A} (l : list A) x : NoDup l → x ∉ l → NoDup (l ++ [x]).
Proof.
  intros Hl Hx. apply NoDup_app. split; [done|]. split.
  - intros y Hy Hy'. apply list_elem_of_singleton in Hy' as ->. done.
  - apply NoDup_singleton.
Qed.

(** Rows with distinct keys are told apart by their keys. *)
Lemma key_inj {A K} (f : A → K) (l : list A) x y :
  NoDup (f <$> l) → x ∈ l → y ∈ l → f x = f y → x = y.
Proof.
  induction l as [|a l IH]; intros Hnd Hx Hy Hf; [by apply elem_of_nil in Hx|].
  rewrite fmap_cons in Hnd. apply NoDup_cons in Hnd as [Ha Hnd].
  apply elem_of_cons in Hx as [->|Hx]; apply elem_of_cons in Hy as [->|Hy].
  - done.
  - exfalso. apply Ha. rewrite Hf. by apply list_elem_of_fmap_2.
  - exfalso. apply Ha. rewrite <- Hf. by apply list_elem_of_fmap_2.
  - by apply IH.
Qed.

Lemma NoDup_fmap_filter {A K} (f : A → K) (P : A → Prop) `{∀ x, Decision (P x)}
    (l : list A) :
  NoDup (f <$> l) → NoDup (f <$> filter P l).
Proof.
  intros Hl. eapply sublist_NoDup; [exact Hl|].
  apply fmap_sublist, sublist_filter.
Qed.

Lemma first_by_phone_Some phone db p :
  first_by_phone phone db = Some p → p ∈ patients db ∧ Patient.phone_number p = phone.
Proof.
  unfold first_by_phone. intros H. apply find_some in H as [Hin Hp].
  split; [by apply list_elem_of_In | by apply bool_decide_eq_true in Hp].
Qed.

Lemma first_by_phone_None phone db :
  first_by_phone phone db = None → phone ∉ Patient.phone_number <$> patients db.
Proof.
  unfold first_by_phone. intros H Hin.
  apply list_elem_of_fmap in Hin as (p & -> & Hp).
  apply list_elem_of_In in Hp.
  pose proof (find_none _ _ H p Hp) as Hf. simpl in Hf.
  by rewrite bool_decide_eq_false in Hf.
Qed.

Lemma first_by_phone_unique db p :
  NoDup (Patient.phone_number <$> patients db) → p ∈ patients db →
  first_by_phone (Patient.phone_number p) db = Some p.
Proof.
  intros Hnd Hp.
  destruct (first_by_phone (Patient.phone_number p) db) as [q|] eqn:E.
  - apply first_by_phone_Some in E as [Hq E]. f_equal.
    by apply (key_inj Patient.phone_number (patients db)).
  - apply first_by_phone_None in E. exfalso. apply E.
    by apply list_elem_of_fmap_2.
Qed.

(** *** Running a unit of work *)

Lemma session_scope_commits {A} (body : M A) db a rows :
  body db = (Ok a, rows) → constraints rows → session_scope body db = (Ok a, rows).
Proof.
  intros Hb Hc. unfold session_scope, run, commit. simpl. rewrite Hb. simpl.
  by rewrite decide_True.
Qed.

Lemma session_scope_rolls_back {A} (body : M A) db e rows :
  body db = (Raise e, rows) → session_scope body db = (Raise e, db).
Proof. intros Hb. unfold session_scope, run. simpl. by rewrite Hb. Qed.

Lemma session_scope_commit_fails {A} (body : M A) db a rows :
  body db = (Ok a, rows) → ¬ constraints rows →
  session_scope body db = (Raise (IntegrityError "constraint failed"), db).
Proof.
  intros Hb Hc. unfold session_scope, run, commit. simpl. rewrite Hb. simpl.
  by rewrite decide_False.
Qed.

(** *** The rows that [save_unit] leaves *)

Lemma overwrite_ids name treatment teeth p l :
  Patient.id <$> overwrite name treatment teeth p l = Patient.id <$> l.
Proof.
  unfold overwrite. rewrite <- list_fmap_compose. apply list_fmap_ext.
  intros _ r _. simpl. by destruct (decide _).
Qed.

Lemma overwrite_phones name treatment teeth p l :
  Patient.phone_number <$> overwrite name treatment teeth p l
  = Patient.phone_number <$> l.
Proof.
  unfold overwrite. rewrite <- list_fmap_compose. apply list_fmap_ext.
  intros _ r _. simpl. by destruct (decide _).
Qed.

(** With distinct ids, the row that has the id of [p] is [p]. *)
Lemma overwrite_row name treatment teeth p l :
  NoDup (Patient.id <$> l) → p ∈ l →
  overwrite name treatment teeth p l
  = (λ r, if decide (r = p) then assign name treatment teeth p else r) <$> l.
Proof.
  intros Hnd Hp. unfold overwrite. apply list_fmap_ext. intros i r Hr.
  apply list_elem_of_lookup_2 in Hr.
  destruct (decide (Patient.id r = Patient.id p)) as [E|E].
  - apply (key_inj Patient.id l) in E; [|done..]. subst r. by rewrite decide_True.
  - rewrite decide_False; [done|]. by intros ->.
Qed.

Lemma keyed_by_absent phone l :
  phone ∉ Patient.phone_number <$> l →
  filter (λ r, Patient.phone_number r = phone) l = [].
Proof.
  intros H. induction l as [|r l IH]; [done|].
  rewrite fmap_cons, not_elem_of_cons in H. destruct H as [H1 H2].
  rewrite filter_cons_False by done. by apply IH.
Qed.

Lemma keyed_by_overwrite name treatment teeth p l :
  NoDup (Patient.id <$> l) → NoDup (Patient.phone_number <$> l) → p ∈ l →
  filter (λ r, Patient.phone_number r = Patient.phone_number p)
    (overwrite name treatment teeth p l)
  = [assign name treatment teeth p].
Proof.
  intros Hid Hph Hp. rewrite overwrite_row by done.
  induction l as [|r l IH]; [by apply elem_of_nil in Hp|].
  rewrite !fmap_cons in *. apply NoDup_cons in Hid as [Hr Hid].
  apply NoDup_cons in Hph as [Hr' Hph].
  destruct (decide (r = p)) as [->|Hne].
  - rewrite filter_cons_True by done. f_equal.
    rewrite <- (keyed_by_absent (Patient.phone_number p) l Hr').
    f_equal. rewrite <- (list_fmap_id l) at 2. apply list_fmap_ext.
    intros i r Hr''%list_elem_of_lookup_2.
    rewrite decide_False; [done|]. intros ->. apply Hr. by apply list_elem_of_fmap_2.
  - apply elem_of_cons in Hp as [->|Hp]; [done|].
    rewrite filter_cons_False; [by apply IH|].
    intros E. apply Hr'. rewrite E. by apply list_elem_of_fmap_2.
Qed.

End StoreFacts.

(** ** The unit of work of [save] *)

Module SaveFacts.
Import StoreFacts.

Section Unit.
Variables (name phone patient_treatment teeth_location : string)
          (app_date : Date) (appointment_treatment dentist : string)
          (fee_val : option spec_float) (notes_val : string).

Let unit_ := save_unit name phone patient_treatment teeth_location app_date
               appointment_treatment dentist fee_val notes_val.

Local Abbreviation saved_patient :=
  (saved_patient name phone patient_treatment teeth_location).
Local Abbreviation saved_patients :=
  (saved_patients name phone patient_treatment teeth_location).
Local Abbreviation saved_rows :=
  (saved_rows name phone patient_treatment teeth_location app_date
     appointment_treatment dentist fee_val notes_val).

Lemma save_unit_rows db : unit_ db = (Ok tt, saved_rows db).
Proof.
  unfold unit_, save_unit, bind, query_first_by_phone, saved_rows,
    saved_patients, saved_patient.
  by destruct (first_by_phone phone db) as [p|].
Qed.

Lemma saved_rows_constraints db : constraints db → constraints (saved_rows db).
Proof.
  intros (Hid & Hph & Haid). unfold constraints, saved_rows, saved_patients. simpl.
  split; [|split].
  - destruct (first_by_phone phone db) as [p|] eqn:E.
    + by rewrite overwrite_ids.
    + rewrite fmap_app. apply NoDup_snoc; [done|].
      unfold saved_patient. rewrite E. apply next_id_fresh.
  - destruct (first_by_phone phone db) as [p|] eqn:E.
    + by rewrite overwrite_phones.
    + rewrite fmap_app. apply NoDup_snoc; [done|].
      unfold saved_patient. rewrite E. by apply first_by_phone_None.
  - rewrite fmap_app. apply NoDup_snoc; [done|]. apply next_id_fresh.
Qed.

Lemma save_unit_commits db :
  constraints db → session_scope unit_ db = (Ok tt, saved_rows db).
Proof.
  intros Hc. apply session_scope_commits; [apply save_unit_rows|].
  by apply saved_rows_constraints.
Qed.

(** One row has the phone afterwards: the saved patient. *)
Lemma saved_rows_keyed db :
  constraints db → keyed_by phone (saved_rows db) = [saved_patient db].
Proof.
  intros (Hid & Hph & _). unfold keyed_by, saved_rows, saved_patients, saved_patient.
  simpl. destruct (first_by_phone phone db) as [p|] eqn:E.
  - apply first_by_phone_Some in E as [Hp <-].
    by apply keyed_by_overwrite.
  - apply first_by_phone_None in E.
    rewrite filter_app, keyed_by_absent by done.
    by rewrite filter_cons_True.
Qed.

Lemma saved_rows_first db :
  constraints db → first_by_phone phone (saved_rows db) = Some (saved_patient db).
Proof.
  intros Hc.
  assert (Hin : saved_patient db ∈ keyed_by phone (saved_rows db)).
  { rewrite saved_rows_keyed by done. apply list_elem_of_singleton. done. }
  apply list_elem_of_filter in Hin as [Hph Hin].
  destruct (saved_rows_constraints db Hc) as (_ & Hnd & _).
  pose proof (first_by_phone_unique _ _ Hnd Hin) as H.
  by rewrite Hph in H.
Qed.
End Unit.

End SaveFacts.

(** C1. On a data base that meets its constraints, the [with] block of
    [save] commits, for every phone. When no patient has the phone, one
    row is added for it with the given name, treatment type and teeth
    location; when a patient has it, these three are overwritten on the
    row of that patient, which keeps its id and phone, and no other row
    changes. After the block ran a second time with the same phone and
    other values, exactly one row is keyed by the phone, and it has the
    name, treatment type and teeth location of the second run. *)
Theorem save_upserts_by_phone
    (db : Store) (phone : string)
    (name treatment teeth : string) (date : Date) (app_treatment dentist : string)
    (fee : option spec_float) (notes : string)
    (name2 treatment2 teeth2 : string) (date2 : Date) (app_treatment2 dentist2 : string)
    (fee2 : option spec_float) (notes2 : string) :
  constraints db →
  ∃ db1 db2 : Store,
    session_scope (save_unit name phone treatment teeth date app_treatment dentist
                     fee notes) db = (Ok tt, db1)
    ∧ match first_by_phone phone db with
      | None =>
          patients db1
          = patients db ++ [Patient.mk (next_id (Patient.id <$> patients db))
                              name phone (Some treatment) (Some teeth)]
      | Some p =>
          patients db1
          = (λ r, if decide (r = p)
                  then Patient.mk (Patient.id p) name phone (Some treatment) (Some teeth)
                  else r) <$> patients db
      end
    ∧ (∃ i, keyed_by phone db1 = [Patient.mk i name phone (Some treatment) (Some teeth)])
    ∧ constraints db1
    ∧ session_scope (save_unit name2 phone treatment2 teeth2 date2 app_treatment2
                       dentist2 fee2 notes2) db1 = (Ok tt, db2)
    ∧ (∃ i, keyed_by phone db2
            = [Patient.mk i name2 phone (Some treatment2) (Some teeth2)])
    ∧ length (patients db2) = length (patients db1).
Proof.
  intros Hc.
  set (db1 := saved_rows name phone treatment teeth date app_treatment
                dentist fee notes db).
  assert (Hc1 : constraints db1) by by apply SaveFacts.saved_rows_constraints.
  exists db1,
    (saved_rows name2 phone treatment2 teeth2 date2 app_treatment2
       dentist2 fee2 notes2 db1).
  assert (Hkey : ∀ n t th d, constraints d →
            ∃ i, saved_patient n phone t th d
                 = Patient.mk i n phone (Some t) (Some th)).
  { intros n t th d Hd. unfold saved_patient.
    destruct (first_by_phone phone d) as [p|] eqn:E; [|by eexists].
    apply StoreFacts.first_by_phone_Some in E as [_ <-]. by eexists. }
  split; [by apply SaveFacts.save_unit_commits|].
  split.
  { unfold db1, saved_rows, saved_patients, saved_patient.
    simpl. destruct (first_by_phone phone db) as [p|] eqn:E; [|done].
    destruct Hc as (Hid & _). apply StoreFacts.first_by_phone_Some in E as [Hp <-].
    by apply StoreFacts.overwrite_row. }
  split.
  { unfold db1. rewrite SaveFacts.saved_rows_keyed by done.
    destruct (Hkey name treatment teeth db Hc) as [i ->]. by exists i. }
  split; [done|].
  split; [by apply SaveFacts.save_unit_commits|].
  split.
  { rewrite SaveFacts.saved_rows_keyed by done.
    destruct (Hkey name2 treatment2 teeth2 db1 Hc1) as [i ->]. by exists i. }
  unfold saved_rows at 1, saved_patients. simpl.
  unfold db1 at 1. rewrite SaveFacts.saved_rows_first by done.
  unfold overwrite. by rewrite length_fmap.
Qed.

Lemma clinic_constraints : constraints clinic.
Proof. by apply (bool_decide_unpack _). Qed.

Lemma save_upserts_by_phone_witness :
  constraints clinic
  ∧ ∃ db1 db2 : Store,
      session_scope (save_unit "Anna" "+10000000" "Crown" "UL1" (mkDate 2025 4 1)
                       "Crown" "Essam" None "") clinic = (Ok tt, db1)
      ∧ session_scope (save_unit "Ann B" "+10000000" "Implant" "LL1, UL1"
                         (mkDate 2025 5 1) "Implant" "Noha" None "") db1
        = (Ok tt, db2)
      ∧ ∃ i, keyed_by "+10000000" db2
             = [Patient.mk i "Ann B" "+10000000" (Some "Implant") (Some "LL1, UL1")].
Proof.
  split; [exact clinic_constraints|].
  destruct (save_upserts_by_phone clinic "+10000000"
              "Anna" "Crown" "UL1" (mkDate 2025 4 1) "Crown" "Essam" None ""
              "Ann B" "Implant" "LL1, UL1" (mkDate 2025 5 1) "Implant" "Noha" None ""
              clinic_constraints)
    as (db1 & db2 & H1 & _ & _ & _ & H2 & H3 & _).
  exists db1, db2. split; [exact H1|]. split; [exact H2|exact H3].
Defined.

(** ** [session_scope] and the handlers that write *)

Module ScopeFacts.
Import StoreFacts SearchFacts.

Lemma session_scope_raise_keeps {A} (body : M A) db e :
  fst (session_scope body db) = Raise e → snd (session_scope body db) = db.
Proof.
  unfold session_scope, run, commit, rollback. simpl.
  destruct (body db) as [[a|e'] rows]; simpl; [|done].
  by destruct (decide (constraints rows)).
Qed.

Lemma report_store info app : store (snd (report info app)) = store app.
Proof.
  unfold report. pose proof (show_records_app None app) as H.
  destruct (show_records None app) as [[[]|e] app']; simpl in *; by rewrite H.
Qed.

Lemma report_ok info app :
  constraints (store app) →
  report info app = ([info], {| store := store app; tree := tree_rows None (store app) |}).
Proof.
  intros Hc. unfold report.
  pose proof (show_records_app None app) as H.
  pose proof (show_records_ok None app Hc) as H'.
  destruct (show_records None app) as [[[]|e] app']; simpl in *; [|done].
  by rewrite H.
Qed.

Lemma report_shows info app : info ∈ fst (report info app).
Proof.
  unfold report. destruct (show_records None app) as [[[]|e] app']; simpl;
    apply elem_of_cons; by left.
Qed.

(** A phone that [validate_phone] lets through is the string it was
    given, and is not empty. *)
Lemma validate_phone_Some s phone :
  Validate.validate_phone s = Some phone → phone = s ∧ Text.truthy phone = true.
Proof.
  unfold Validate.validate_phone.
  destruct (Validate.span_digits _) as [n rest] eqn:E.
  destruct (_ && _) eqn:Hn; [|done]. intros [= <-]. split; [done|].
  destruct s as [|c s]; [|done]. simpl in E. injection E as <- <-. done.
Qed.

(** Without a message of success, [save] left the rows as they were. *)
Lemma save_failure_keeps float w app :
  (∀ title message, showinfo title message ∉ fst (save float w app)) →
  store (snd (save float w app)) = store app.
Proof.
  unfold save.
  repeat match goal with
         | |- context [if negb ?b then _ else _] => destruct b; simpl; [|done]
         | |- context [match Validate.validate_phone ?s with _ => _ end] =>
             destruct (Validate.validate_phone s); [|done]
         end.
  match goal with |- context [session_scope ?b ?d] =>
    pose proof (session_scope_raise_keeps b d) as Hr;
    destruct (session_scope b d) as [[[]|e] db] end; simpl in *.
  - intros H. exfalso. eapply H. apply report_shows.
  - intros _. by apply (Hr e).
Qed.

Lemma delete_failure_keeps askstring askyesno app :
  (∀ title message,
     showinfo title message ∉ fst (delete_patient_gui askstring askyesno app)) →
  askyesno = true →
  store (snd (delete_patient_gui askstring askyesno app)) = store app.
Proof.
  intros H ->. revert H. unfold delete_patient_gui.
  destruct askstring as [s|]; [|done].
  destruct (Validate.validate_phone _) as [phone|]; [|done].
  destruct (Text.truthy phone); simpl; [|done].
  pose proof (session_scope_raise_keeps (delete_unit phone true) (store app)) as Hr.
  destruct (session_scope _ _) as [[[]|e] db] eqn:E; simpl in *.
  - intros H. exfalso. eapply H. apply report_shows.
  - exfalso. revert E. unfold session_scope, run, delete_unit, bind,
      query_first_by_phone, commit. simpl.
    destruct (first_by_phone phone (store app)); simpl; [|done].
    by destruct (decide _).
  - intros _. by apply (Hr e).
Qed.

End ScopeFacts.

(** C4. [session_scope] is all or nothing, for every body. An exception
    raised in the body comes out of the scope, and the data base is the
    one from before the scope, whatever rows the body had written by then;
    the same holds when the commit fails. In short, when the scope raises,
    the data base is unchanged. The two handlers that write do so in one
    scope each: when [save] or a confirmed [delete_patient_gui] shows no
    message of success, the data base is unchanged. *)
Theorem session_scope_all_or_nothing {A : Type} (body : M A) (db : Store) :
  (∀ e rows, body db = (Raise e, rows) → session_scope body db = (Raise e, db))
  ∧ (∀ a rows, body db = (Ok a, rows) → ¬ constraints rows →
       ∃ e, session_scope body db = (Raise e, db))
  ∧ (∀ e, fst (session_scope body db) = Raise e → snd (session_scope body db) = db)
  ∧ (∀ float w app,
       (∀ title message, showinfo title message ∉ fst (save float w app)) →
       store (snd (save float w app)) = store app)
  ∧ (∀ askstring app,
       (∀ title message,
          showinfo title message ∉ fst (delete_patient_gui askstring true app)) →
       store (snd (delete_patient_gui askstring true app)) = store app).
Proof.
  split; [intros e rows; apply StoreFacts.session_scope_rolls_back|].
  split.
  { intros a rows Hb Hc. eexists. by eapply StoreFacts.session_scope_commit_fails. }
  split; [intros e; apply ScopeFacts.session_scope_raise_keeps|].
  split; [apply ScopeFacts.save_failure_keeps|].
  intros askstring app H. by apply ScopeFacts.delete_failure_keeps.
Qed.

(** A body that deletes Ann and all her appointments and then raises:
    the exception comes out and the clinic is as before. *)
Lemma session_scope_all_or_nothing_witness :
  delete_then_raise clinic = (Raise (ValueError "late"), deleted Ann clinic)
  ∧ deleted Ann clinic ≠ clinic
  ∧ session_scope delete_then_raise clinic = (Raise (ValueError "late"), clinic).
Proof.
  split; [reflexivity|]. split; [discriminate|].
  apply (proj1 (session_scope_all_or_nothing delete_then_raise clinic)
           (ValueError "late") (deleted Ann clinic)).
  reflexivity.
Defined.

(** ** [delete_patient_gui] *)

Module DeleteFacts.
Import StoreFacts ScopeFacts.

Lemma deleted_constraints p db : constraints db → constraints (deleted p db).
Proof.
  intros (Hid & Hph & Haid). unfold constraints, deleted. simpl.
  split; [|split]; by apply NoDup_fmap_filter.
Qed.

Lemma filter_ext_in {A} (P Q : A → Prop)
    `{∀ x, Decision (P x)} `{∀ x, Decision (Q x)} (l : list A) :
  (∀ x, x ∈ l → (P x ↔ Q x)) → filter P l = filter Q l.
Proof.
  induction l as [|a l IH]; intros HPQ; [done|].
  assert (Ha : P a ↔ Q a) by (apply HPQ, elem_of_cons; by left).
  assert (Hl : filter P l = filter Q l).
  { apply IH. intros x Hx. apply HPQ, elem_of_cons. by right. }
  destruct (decide (P a)) as [HP|HP].
  - rewrite !filter_cons_True by tauto. by rewrite Hl.
  - rewrite !filter_cons_False by tauto. done.
Qed.

(** With distinct ids, the rows without the id of [p] are the rows
    other than [p]. *)
Lemma deleted_patients p db :
  NoDup (Patient.id <$> patients db) → p ∈ patients db →
  patients (deleted p db) = filter (λ r, r ≠ p) (patients db).
Proof.
  intros Hnd Hp. unfold deleted. simpl. apply filter_ext_in.
  intros r Hr. split.
  - intros Hne ->. done.
  - intros Hne E. apply Hne. by apply (key_inj Patient.id (patients db)).
Qed.

Lemma deleted_count p db :
  length (appointments db)
  = (length (appointments (deleted p db)) + length (appointments_of p db))%nat.
Proof.
  unfold deleted, appointments_of. simpl.
  induction (appointments db) as [|a l IH]; [done|].
  destruct (decide (Appointment.patient_id a = Some (Patient.id p))) as [E|E].
  - rewrite filter_cons_False by (intros H; done).
    rewrite filter_cons_True by done. simpl. lia.
  - rewrite filter_cons_True by done.
    rewrite filter_cons_False by done. simpl. lia.
Qed.

Lemma deleted_orphans p db : appointments_of p (deleted p db) = [].
Proof.
  unfold deleted, appointments_of. simpl.
  induction (appointments db) as [|a l IH]; [done|].
  destruct (decide (Appointment.patient_id a = Some (Patient.id p))) as [E|E].
  - by rewrite filter_cons_False by (intros H; done).
  - rewrite filter_cons_True by done. by rewrite filter_cons_False.
Qed.

Lemma deleted_first phone p db :
  NoDup (Patient.phone_number <$> patients db) →
  first_by_phone phone db = Some p →
  first_by_phone phone (deleted p db) = None.
Proof.
  intros Hnd Hp. apply first_by_phone_Some in Hp as [Hp <-].
  destruct (first_by_phone _ (deleted p db)) as [q|] eqn:E; [|done].
  apply first_by_phone_Some in E as [Hq E]. exfalso.
  unfold deleted in Hq. simpl in Hq. apply list_elem_of_filter in Hq as [Hne Hq].
  apply Hne. f_equal. by apply (key_inj Patient.phone_number (patients db)).
Qed.

Lemma delete_unit_found phone p db :
  first_by_phone phone db = Some p →
  delete_unit phone true db = (Ok true, deleted p db).
Proof.
  intros H. unfold delete_unit, bind, query_first_by_phone. by rewrite H.
Qed.

Lemma delete_unit_missing phone askyesno db :
  first_by_phone phone db = None →
  delete_unit phone askyesno db = (Raise (ValueError "Patient not found."), db).
Proof.
  intros H. unfold delete_unit, bind, query_first_by_phone. by rewrite H.
Qed.

End DeleteFacts.

(** C5. For every phone that [validate_phone] accepts, on a data base
    that meets its constraints: when no patient has the phone, the
    handler fails with "Patient not found." and changes nothing; when a
    patient has it and the user confirms, the handler reports the
    deletion, the row of the patient is gone, every appointment of the
    patient is gone and no other is (as many rows less as the patient had
    appointments), the appointments of the former id are none, and no
    patient has the phone any more. *)
Theorem delete_patient_by_phone (entered phone : string) (app : App) :
  Validate.validate_phone (Text.strip entered) = Some phone →
  constraints (store app) →
  match first_by_phone phone (store app) with
  | None =>
      ∀ askyesno,
        delete_patient_gui (Some entered) askyesno app
        = ([showerror "Error" "Patient not found."], app)
  | Some p =>
      ∃ app',
        delete_patient_gui (Some entered) true app
        = ([showinfo "Deleted" ("Patient with phone '" +:+ phone +:+ "' deleted.")],
           app')
        ∧ patients (store app') = filter (λ r, r ≠ p) (patients (store app))
        ∧ appointments (store app')
          = filter (λ a, Appointment.patient_id a ≠ Some (Patient.id p))
              (appointments (store app))
        ∧ length (appointments (store app))
          = (length (appointments (store app'))
             + length (appointments_of p (store app)))%nat
        ∧ appointments_of p (store app') = []
        ∧ first_by_phone phone (store app') = None
  end.
Proof.
  intros Hv Hc. pose proof (ScopeFacts.validate_phone_Some _ _ Hv) as [_ Ht].
  unfold delete_patient_gui. rewrite Hv, Ht. simpl negb. cbv iota.
  destruct (first_by_phone phone (store app)) as [p|] eqn:E.
  - set (db' := deleted p (store app)).
    assert (Hc' : constraints db') by by apply DeleteFacts.deleted_constraints.
    exists {| store := db'; tree := tree_rows None db' |}.
    erewrite StoreFacts.session_scope_commits;
      [|by apply DeleteFacts.delete_unit_found|done].
    rewrite ScopeFacts.report_ok by done. simpl.
    split; [done|].
    destruct Hc as (Hid & Hph & _).
    split.
    { apply DeleteFacts.deleted_patients; [done|].
      by apply StoreFacts.first_by_phone_Some in E as [? _]. }
    split; [done|].
    split; [apply DeleteFacts.deleted_count|].
    split; [apply DeleteFacts.deleted_orphans|].
    by apply DeleteFacts.deleted_first.
  - intros askyesno.
    erewrite StoreFacts.session_scope_rolls_back;
      [|by apply DeleteFacts.delete_unit_missing].
    simpl. by destruct app.
Qed.

(** Ann has two appointments in the clinic; Bob's one stays. *)
Lemma delete_patient_by_phone_witness :
  Validate.validate_phone (Text.strip " +10000000 ") = Some "+10000000"
  ∧ constraints clinic
  ∧ ∃ app',
      delete_patient_gui (Some " +10000000 ") true (mkApp clinic [])
      = ([showinfo "Deleted" "Patient with phone '+10000000' deleted."], app')
      ∧ patients (store app') = [Bob]
      ∧ appointments (store app') = [visit 3 (mkDate 2025 2 1) "Crown" 2]
      ∧ appointments_of Ann (store app') = [].
Proof.
  split; [reflexivity|]. split; [exact clinic_constraints|].
  pose proof (delete_patient_by_phone " +10000000 " "+10000000" (mkApp clinic [])
                eq_refl clinic_constraints) as H.
  change (first_by_phone "+10000000" (store (mkApp clinic []))) with (Some Ann) in H.
  destruct H as (app' & H1 & H2 & H3 & _ & H5 & _).
  exists app'. split; [exact H1|]. split; [exact H2|]. split; [exact H3|exact H5].
Defined.

(** ** [modify_patient_gui] and [save_modifications] *)

(** C2, on the code. [save_modifications] never changes a row: whatever
    the window and the data base, the data base after it is the one
    before. With Ann alone in the data base: the handler finds her and
    opens the window; the user types the name "Anna" and saves; the
    program says "Patient details updated.", the object of the window has
    the new name, and the patient read by the same phone is still named
    "Ann". With no patient for the phone the handler fails with "Patient
    not found.". *)
Theorem save_modifications_changes_no_row :
  (∀ w app, store (snd (fst (save_modifications w app))) = store app)
  ∧ (let app := mkApp (mkStore [Ann] []) [] in
     let w := mkModWindow Ann "Ann" "Cleaning" "" in
     modify_patient_gui (Some "+10000000") app = ([], app, Some w)
     ∧ ∃ app' w',
         save_modifications (mkModWindow Ann "Anna" "Whitening" "UL1") app
         = ([showinfo "Success" "Patient details updated."], app', w')
         ∧ Patient.patient_name (patient w') = "Anna"
         ∧ first_by_phone "+10000000" (store app') = Some Ann
         ∧ col_patient <$> tree app' = ["Ann"])
  ∧ modify_patient_gui (Some "+20000000") (mkApp (mkStore [Ann] []) [])
    = ([showerror "Error" "Patient not found."], mkApp (mkStore [Ann] []) [], None).
Proof.
  split; [|split].
  - intros w app. unfold save_modifications.
    destruct (negb _); [done|].
    pose proof (ScopeFacts.report_store (showinfo "Success" "Patient details updated.") app)
      as H.
    by destruct (report _ app) as [dialogs app'].
  - split; [by vm_compute|].
    eexists _, _. split; [by vm_compute|]. by vm_compute.
  - by vm_compute.
Qed.

(** ** [save] and a fee that [validate_fee] refuses *)

Lemma save_float_ext (float1 float2 : string → option spec_float) w app :
  float1 (Text.strip (fee_entry w)) = float2 (Text.strip (fee_entry w)) →
  save float1 w app = save float2 w app.
Proof. intros H. unfold save, Validate.validate_fee. by rewrite H. Qed.

(** C3, on the code. Whatever Python's [float] is, provided it reads "-1"
    as -1.0 and refuses "abc": the form with the fee "-1", and the form
    with the fee "abc", are saved. The program reports success, the
    patient and the appointment are in the data base, and the appointment
    has no fee. *)
Theorem save_keeps_going_on_a_refused_fee (float : string → option spec_float)
    (fee : string) :
  float "-1" = Some minus_one →
  float "abc" = None →
  fee = "-1" ∨ fee = "abc" →
  save float
    (mkAddWindow "Ann" "+10000000" "Cleaning" "" (mkDate 2025 1 20)
       "Cleaning" "Noha" fee "")
    (mkApp (mkStore [] []) [])
  = ([showinfo "Success" "Patient 'Ann' and appointment added successfully."],
     mkApp
       (mkStore [Patient.mk 1 "Ann" "+10000000" (Some "Cleaning") (Some "")]
                [Appointment.mk 1 (mkDate 2025 1 20) "Cleaning" "Noha" None (Some "")
                   (Some 1)])
       [mkRow "Ann" "+10000000" "Cleaning" "" (Some (mkDate 2025 1 20))
          "Cleaning" "Noha" None ""]).
Proof.
  intros Hneg Habc [-> | ->].
  - rewrite (save_float_ext float float_table); [by vm_compute|].
    exact Hneg.
  - rewrite (save_float_ext float float_table); [by vm_compute|].
    exact Habc.
Qed.

Lemma save_keeps_going_on_a_refused_fee_witness :
  float_table "-1" = Some minus_one
  ∧ float_table "abc" = None
  ∧ SFltb minus_one (S754_zero false) = true
  ∧ fst (save float_table
           (mkAddWindow "Ann" "+10000000" "Cleaning" "" (mkDate 2025 1 20)
              "Cleaning" "Noha" "-1" "")
           (mkApp (mkStore [] []) []))
    = [showinfo "Success" "Patient 'Ann' and appointment added successfully."].
Proof.
  split; [reflexivity|]. split; [reflexivity|]. split; [reflexivity|].
  rewrite (save_keeps_going_on_a_refused_fee float_table "-1" eq_refl eq_refl
             (or_introl eq_refl)).
  reflexivity.
Defined.


(** * More of the program *)

(** ** What [strip] and [split] leave *)

Module TextMore.
Import Text TextFacts.

Lemma lstrip_first s c : first_char (lstrip s) = Some c → is_space c = false.
Proof.
  induction s as [|d s IH]; simpl; [done|].
  destruct (is_space d) eqn:E; [done|]. simpl. by intros [= <-].
Qed.

Lemma rstrip_last s c : last_char (rstrip s) = Some c → is_space c = false.
Proof.
  induction s as [|d s IH]; simpl; [done|].
  destruct (rstrip s) as [|e r] eqn:E.
  - destruct (is_space d) eqn:Hd; simpl; [done|]. by intros [= <-].
  - exact IH.
Qed.

Lemma rstrip_first s c : first_char (rstrip s) = Some c → first_char s = Some c.
Proof.
  destruct s as [|d s]; simpl; [done|].
  destruct (rstrip s); [|done]. by destruct (is_space d).
Qed.

Lemma mem_lstrip sep s : mem sep s = false → mem sep (lstrip s) = false.
Proof.
  induction s as [|d s IH]; simpl; [done|].
  intros [H1 H2]%orb_false_iff. destruct (is_space d); [by apply IH|].
  simpl. by rewrite H1, H2.
Qed.

Lemma mem_rstrip sep s : mem sep s = false → mem sep (rstrip s) = false.
Proof.
  induction s as [|d s IH]; simpl; [done|].
  intros [H1 H2]%orb_false_iff. specialize (IH H2).
  destruct (rstrip s) as [|e r].
  - destruct (is_space d); simpl; [done|]. by rewrite H1.
  - change (mem sep (String d (String e r))) with (Ascii.eqb sep d || mem sep (String e r)).
    by rewrite H1, IH.
Qed.

Lemma strip_first s c : first_char (strip s) = Some c → is_space c = false.
Proof. intros H%rstrip_first. by eapply lstrip_first. Qed.

Lemma strip_last s c : last_char (strip s) = Some c → is_space c = false.
Proof. apply rstrip_last. Qed.

Lemma mem_strip sep s : mem sep s = false → mem sep (strip s) = false.
Proof. intros H. by apply mem_rstrip, mem_lstrip. Qed.

(** [strip] is idempotent. *)
Lemma strip_strip s : strip (strip s) = strip s.
Proof. apply strip_id; [apply strip_first | apply strip_last]. Qed.

(** No piece of a split holds the separator. *)
Lemma split_pieces_free sep s : Forall (λ piece, mem sep piece = false) (split sep s).
Proof.
  induction s as [|c s IH]; simpl; [by repeat constructor|].
  destruct (Ascii.eqb c sep) eqn:E; [by constructor|].
  rewrite Ascii.eqb_sym in E.
  destruct (split sep s) as [|piece pieces].
  - constructor; [|constructor]. simpl. by rewrite E.
  - inversion IH as [|?? Hp Hps]; subst. constructor; [|done].
    simpl. by rewrite E, Hp.
Qed.

(** Joining the pieces with the separator gives the string back. *)
Lemma join_split sep s : join (String sep EmptyString) (split sep s) = s.
Proof.
  induction s as [|c s IH]; [done|]. simpl.
  destruct (Ascii.eqb_spec c sep) as [->|Hne].
  - pose proof (split_nonempty sep s) as Hs.
    destruct (split sep s) as [|piece pieces]; [done|].
    change (join (String sep "") ("" :: piece :: pieces))
      with (String sep (join (String sep "") (piece :: pieces))).
    by rewrite IH.
  - pose proof (split_nonempty sep s) as Hs.
    destruct (split sep s) as [|piece pieces]; [done|].
    rewrite <- IH. by destruct pieces.
Qed.

End TextMore.

(** ** The selector *)

Module TeethMore.
Import Text TextFacts TextMore Teeth TeethFacts.

Lemma tokenb_token t : tokenb t = true → token t.
Proof.
  unfold tokenb, token.
  intros [[[H1 H2]%andb_true_iff H3]%andb_true_iff H4]%andb_true_iff.
  split; [by apply truthy_true|]. split; [by apply negb_true_iff|]. split.
  - intros c Hc. rewrite Hc in H3. by apply negb_true_iff.
  - intros c Hc. rewrite Hc in H4. by apply negb_true_iff.
Qed.

Lemma add_tooth_tokens (S : gset string) piece :
  mem "," piece = false →
  (∀ t, t ∈ S → token t) → ∀ t, t ∈ add_tooth S piece → token t.
Proof.
  intros Hp HS t. unfold add_tooth.
  destruct (truthy (strip piece)) eqn:E; [|by apply HS].
  intros [Ht| ->%elem_of_singleton]%elem_of_union; [by apply HS|].
  split; [by apply truthy_true|]. split; [by apply mem_strip|].
  split; [apply strip_first | apply strip_last].
Qed.

Lemma foldl_add_tooth_tokens pieces (S : gset string) :
  Forall (λ piece, mem "," piece = false) pieces →
  (∀ t, t ∈ S → token t) → ∀ t, t ∈ foldl add_tooth S pieces → token t.
Proof.
  revert S. induction pieces as [|piece pieces IH]; intros S Hp HS; [done|].
  inversion Hp; subst. simpl. apply IH; [done|]. by apply add_tooth_tokens.
Qed.

Lemma open_tokens s t : t ∈ open_teeth_selector s → token t.
Proof.
  unfold open_teeth_selector. destruct (truthy s); [|set_solver].
  apply foldl_add_tooth_tokens; [apply split_pieces_free|set_solver].
Qed.

Lemma open_on_ok (T : gset string) :
  (∀ t, t ∈ T → token t) → open_teeth_selector (on_ok T) = T.
Proof.
  intros HT. unfold on_ok.
  pose proof (sorted_Permutation String.ltb (elements T)) as Hperm.
  assert (Htok : Forall token (sorted String.ltb (elements T))).
  { apply Forall_forall. intros t Ht. apply HT.
    rewrite Hperm in Ht. by apply elem_of_elements. }
  destruct (sorted String.ltb (elements T)) as [|t l] eqn:E.
  - apply Permutation_nil_l in Hperm. symmetry in Hperm.
    apply elements_empty_inv in Hperm. symmetry. by apply leibniz_equiv.
  - rewrite open_join by done. rewrite Hperm. apply list_to_set_elements_L.
Qed.

Lemma toggle_comm a b (S : gset string) : toggle a (toggle b S) = toggle b (toggle a S).
Proof.
  apply set_eq. intros x. rewrite !elem_of_toggle.
  destruct (decide (x = a)), (decide (x = b)), (decide (a ∈ S)), (decide (b ∈ S));
    subst; naive_solver.
Qed.

Lemma buttons_tokens : Forall token buttons.
Proof.
  apply Forall_forall. intros t Ht%list_elem_of_In. apply tokenb_token.
  revert t Ht. apply forallb_forall. by vm_compute.
Qed.

Lemma is_button_in q n : is_button (q, n) → tooth_id q n ∈ buttons.
Proof.
  intros [Hq Hn]. simpl in *.
  assert (n = 1 ∨ n = 2 ∨ n = 3 ∨ n = 4 ∨ n = 5 ∨ n = 6 ∨ n = 7 ∨ n = 8)
    as Hn' by lia.
  unfold quadrant_info in Hq.
  repeat (apply elem_of_cons in Hq as [->|Hq]);
    [..|by apply elem_of_nil in Hq];
    repeat (destruct Hn' as [->|Hn']); try subst n;
    apply list_elem_of_In; vm_compute; tauto.
Qed.

Lemma toggle_subseteq t (S B : gset string) : S ⊆ B → t ∈ B → toggle t S ⊆ B.
Proof. intros HS Ht x. rewrite elem_of_toggle. set_solver. Qed.

Lemma presses_buttons clicks (S : gset string) :
  Forall is_button clicks → S ⊆ list_to_set buttons →
  ∃ S', foldl press (Some S) clicks = Some S' ∧ S' ⊆ list_to_set buttons.
Proof.
  revert S. induction clicks as [|[q n] clicks IH]; intros S Hc HS; [by exists S|].
  inversion Hc as [|?? Hb Hc']; subst. simpl.
  rewrite toggle_tooth_button by by apply is_button_in.
  apply IH; [done|]. apply toggle_subseteq; [done|].
  apply elem_of_list_to_set. by apply is_button_in.
Qed.

End TeethMore.

(** X1. Whatever string the selector is opened on, the tokens it selects
    are not empty, hold no comma and have no whitespace at either end; so
    OK and a new opening give the same selection again. *)
Theorem open_teeth_selector_canonical (s : string) :
  (∀ t, t ∈ Teeth.open_teeth_selector s → Teeth.token t)
  ∧ Teeth.open_teeth_selector (Teeth.on_ok (Teeth.open_teeth_selector s))
    = Teeth.open_teeth_selector s.
Proof.
  split; [intros t; apply TeethMore.open_tokens|].
  apply TeethMore.open_on_ok. intros t. apply TeethMore.open_tokens.
Qed.

(** X2. Two clicks on different teeth, in either order, give the same
    selection. *)
Theorem toggle_commutes (a b : string) (S : gset string) :
  Teeth.toggle a (Teeth.toggle b S) = Teeth.toggle b (Teeth.toggle a S).
Proof. apply TeethMore.toggle_comm. Qed.

(** X3. A click changes the number of selected teeth by exactly one: one
    less when the tooth was selected, one more when it was not. *)
Theorem toggle_size (t : string) (S : gset string) :
  ((t ∈ S) ∧ size S = (size (Teeth.toggle t S) + 1)%nat)
  ∨ ((t ∉ S) ∧ size (Teeth.toggle t S) = (size S + 1)%nat).
Proof.
  unfold Teeth.toggle. destruct (decide (t ∈ S)) as [Hin|Hout]; [left|right].
  - split; [done|]. rewrite size_difference by set_solver.
    rewrite size_singleton. assert (size S ≠ 0%nat); [|lia].
    intros H%size_empty_inv. set_solver.
  - split; [done|]. rewrite size_union by set_solver. by rewrite size_singleton.
Qed.

(** X4. [toggle_tooth] fails with [KeyError] exactly for an identifier
    that has no button, and every quadrant of [quadrant_info] with a number
    from 1 to 8 has one. *)
Theorem toggle_tooth_key_error (qabbr : string) (num : Z) (S : gset string) :
  (Teeth.toggle_tooth qabbr num S = None ↔ Teeth.tooth_id qabbr num ∉ Teeth.buttons)
  ∧ (is_button (qabbr, num) →
     Teeth.toggle_tooth qabbr num S = Some (Teeth.toggle (Teeth.tooth_id qabbr num) S)).
Proof.
  split.
  - unfold Teeth.toggle_tooth. destruct (decide _); naive_solver.
  - intros H. by apply TeethFacts.toggle_tooth_button, TeethMore.is_button_in.
Qed.

Lemma toggle_tooth_key_error_witness :
  is_button ("LR", 3)
  ∧ Teeth.toggle_tooth "LR" 3 {[ "UL8" ]} = Some {[ "UL8"; "LR3" ]}
  ∧ Teeth.toggle_tooth "LR" 9 {[ "UL8" ]} = None.
Proof.
  assert (H : is_button ("LR", 3)).
  { split; [|simpl; lia]. simpl. unfold Teeth.quadrant_info. set_solver. }
  split; [exact H|]. split.
  - rewrite (proj2 (toggle_tooth_key_error "LR" 3 {[ "UL8" ]}) H).
    by vm_compute.
  - apply (proj1 (toggle_tooth_key_error "LR" 9 {[ "UL8" ]})).
    intros Hin%list_elem_of_In. vm_compute in Hin. intuition discriminate.
Defined.

(** X5. From the empty field of the add form, whatever buttons are
    clicked, OK returns a string: its tokens are identifiers of buttons,
    each once, in increasing order, and the selector opened on it shows
    the same selection. *)
Theorem select_teeth_from_empty (clicks : list (string * Z)) :
  Forall is_button clicks →
  ∃ (S : gset string) (l : list string),
    foldl press (Some (Teeth.open_teeth_selector "")) clicks = Some S
    ∧ select_teeth "" clicks = Some (Text.join ", " l)
    ∧ StronglySorted (λ a b, String.ltb a b = true) l
    ∧ (∀ t, t ∈ l ↔ t ∈ S)
    ∧ (∀ t, t ∈ l → t ∈ Teeth.buttons)
    ∧ Teeth.open_teeth_selector (Text.join ", " l) = S.
Proof.
  intros Hc.
  destruct (TeethMore.presses_buttons clicks (Teeth.open_teeth_selector "") Hc)
    as (S & HS & Hsub); [set_solver|].
  exists S, (sorted String.ltb (elements S)).
  assert (Hel : ∀ t, t ∈ sorted String.ltb (elements S) ↔ t ∈ S).
  { intros t. rewrite elem_of_sorted. apply elem_of_elements. }
  split; [done|]. split; [unfold select_teeth; by rewrite HS|].
  split; [apply TeethFacts.sorted_elements_strict|]. split; [done|].
  split.
  { intros t Ht%Hel%Hsub. by apply elem_of_list_to_set in Ht. }
  apply (TeethMore.open_on_ok S). intros t Ht%Hsub.
  apply elem_of_list_to_set in Ht.
  by eapply Forall_forall in Ht; [|apply TeethMore.buttons_tokens].
Qed.

Lemma select_teeth_from_empty_witness :
  Forall is_button [("UL", 8); ("LL", 1); ("UL", 8); ("LR", 3)]
  ∧ select_teeth "" [("UL", 8); ("LL", 1); ("UL", 8); ("LR", 3)] = Some "LL1, LR3".
Proof.
  assert (H : Forall is_button [("UL", 8); ("LL", 1); ("UL", 8); ("LR", 3)]).
  { repeat constructor; simpl; unfold Teeth.quadrant_info; (set_solver || lia). }
  split; [exact H|].
  destruct (select_teeth_from_empty _ H) as (S & l & _ & Hs & _).
  rewrite Hs. symmetry. rewrite <- Hs. by vm_compute.
Defined.

(** X6. Two sets of tokens that OK turns into the same string are the
    same set. *)
Theorem on_ok_injective (S T : gset string) :
  (∀ t, t ∈ S → Teeth.token t) → (∀ t, t ∈ T → Teeth.token t) →
  Teeth.on_ok S = Teeth.on_ok T → S = T.
Proof.
  intros HS HT E.
  rewrite <- (TeethMore.open_on_ok S HS), <- (TeethMore.open_on_ok T HT).
  by rewrite E.
Qed.

Lemma on_ok_injective_witness :
  (∀ t, t ∈ ({[ "UL8"; "LL1" ]} : gset string) → Teeth.token t)
  ∧ (∀ t, t ∈ ({[ "LL1"; "UL8" ]} : gset string) → Teeth.token t)
  ∧ Teeth.on_ok {[ "UL8"; "LL1" ]} = Teeth.on_ok {[ "LL1"; "UL8" ]}
  ∧ ({[ "UL8"; "LL1" ]} : gset string) = {[ "LL1"; "UL8" ]}.
Proof.
  assert (H : ∀ t, t = "UL8" ∨ t = "LL1" → Teeth.token t).
  { intros t [-> | ->]; apply TeethMore.tokenb_token; reflexivity. }
  assert (H1 : ∀ t, t ∈ ({[ "UL8"; "LL1" ]} : gset string) → Teeth.token t).
  { intros t Ht. apply H. set_solver. }
  assert (H2 : ∀ t, t ∈ ({[ "LL1"; "UL8" ]} : gset string) → Teeth.token t).
  { intros t Ht. apply H. set_solver. }
  assert (E : Teeth.on_ok {[ "UL8"; "LL1" ]} = Teeth.on_ok {[ "LL1"; "UL8" ]})
    by by vm_compute.
  split; [exact H1|]. split; [exact H2|]. split; [exact E|].
  exact (on_ok_injective _ _ H1 H2 E).
Defined.

(** ** [validate_phone] *)

Module PhoneFacts.
Import Text Validate.

Lemma newline_not_digit : is_digit "010" = false.
Proof. reflexivity. Qed.

Lemma plus_not_digit c : is_digit c = true → c ≠ "+"%char.
Proof. by intros H ->. Qed.

(** A first character other than [+] is no sign. *)
Lemma no_sign c s :
  c ≠ "+"%char →
  match String c s with
  | String "+" d => d
  | _ => String c s
  end = String c s.
Proof. destruct c as [[] [] [] [] [] [] [] []]; done. Qed.

Lemma span_all_digits d : all_digits d = true → span_digits d = (String.length d, EmptyString).
Proof.
  induction d as [|c d IH]; simpl; [done|].
  intros [Hc Hd]%andb_true_iff. by rewrite Hc, (IH Hd).
Qed.

Lemma span_all_digits_newline d :
  all_digits d = true →
  span_digits (d +:+ String "010" EmptyString) = (String.length d, String "010" EmptyString).
Proof.
  induction d as [|c d IH]; [done|]. rewrite TextFacts.app_cons. simpl.
  intros [Hc Hd]%andb_true_iff. by rewrite Hc, (IH Hd).
Qed.

(** What [span_digits] returns: the digits in front, and a rest that does
    not begin with a digit. *)
Lemma span_digits_spec d n rest :
  span_digits d = (n, rest) →
  ∃ ds, d = ds +:+ rest ∧ all_digits ds = true ∧ String.length ds = n.
Proof.
  revert n rest. induction d as [|c d IH]; intros n rest; simpl.
  - intros [= <- <-]. by exists EmptyString.
  - destruct (is_digit c) eqn:Hc.
    + destruct (span_digits d) as [m r]. intros [= <- <-].
      destruct (IH m r eq_refl) as (ds & -> & Hds & <-).
      exists (String c ds). simpl. by rewrite Hc, Hds.
    + intros [= <- <-]. by exists EmptyString.
Qed.

Lemma at_end_inv rest :
  at_end rest = true → rest = EmptyString ∨ rest = String "010" EmptyString.
Proof.
  destruct rest as [|c [|]]; simpl; [by left| |done].
  intros H. right. by apply Ascii.eqb_eq in H as ->.
Qed.

Lemma last_char_snoc s c : last_char (s +:+ String c EmptyString) = Some c.
Proof.
  induction s as [|d s IH]; [done|]. rewrite TextFacts.app_cons.
  destruct s; [done|]. exact IH.
Qed.

Lemma phone_shape_digits digits :
  all_digits digits = true → (8 ≤ String.length digits ≤ 15)%nat →
  phone_shape digits = true ∧ phone_shape (String "+" digits) = true.
Proof.
  intros Hd [H8 H15]. unfold phone_shape.
  assert (Hr : (8 <=? String.length digits)%nat && (String.length digits <=? 15)%nat = true).
  { apply andb_true_iff. split; by apply Nat.leb_le. }
  split.
  - destruct digits as [|c d]; [simpl in H8; lia|].
    rewrite no_sign.
    + by rewrite Hd, <- andb_assoc, Hr.
    + apply plus_not_digit. simpl in Hd. by apply andb_true_iff in Hd as [? _].
  - by rewrite Hd, <- andb_assoc, Hr.
Qed.

(** The shape read back: the sign and the digits. *)
Lemma phone_shape_inv s :
  phone_shape s = true →
  ∃ digits, (s = digits ∨ s = String "+" digits)
            ∧ match s with
              | String "+" d => d
              | _ => s
              end = digits
            ∧ all_digits digits = true ∧ (8 ≤ String.length digits ≤ 15)%nat.
Proof.
  unfold phone_shape. intros [[Hd H8]%andb_true_iff H15]%andb_true_iff.
  apply Nat.leb_le in H8, H15.
  eexists. split; [|split; [reflexivity|by split]].
  destruct s as [|c s]; [by left|].
  destruct (ascii_dec c "+") as [->|Hne]; [by right|].
  left. by rewrite no_sign.
Qed.

Lemma validate_phone_shape s phone :
  validate_phone s = Some phone
  ↔ phone = s
    ∧ (phone_shape s = true
       ∨ ∃ s0, s = s0 +:+ String "010" EmptyString ∧ phone_shape s0 = true).
Proof.
  unfold validate_phone. split.
  - destruct (span_digits _) as [n rest] eqn:E.
    destruct (_ && _) eqn:Hn; [|done]. intros [= <-]. split; [done|].
    apply andb_true_iff in Hn as [[H8 H15]%andb_true_iff Hend].
    apply Nat.leb_le in H8, H15.
    apply span_digits_spec in E as (ds & E & Hds & <-).
    destruct (phone_shape_digits ds Hds (conj H8 H15)) as [Hp Hp'].
    apply at_end_inv in Hend as [-> | ->].
    + left. rewrite TextFacts.app_empty_r in E.
      destruct s as [|c s]; [by subst|].
      destruct (ascii_dec c "+") as [->|Hne]; [by subst|].
      rewrite no_sign in E by done. by rewrite E.
    + right. destruct s as [|c s]; [by destruct ds|].
      destruct (ascii_dec c "+") as [->|Hne].
      * exists (String "+" ds). by subst.
      * rewrite no_sign in E by done. exists ds. by rewrite E.
  - intros [-> [Hs|(s0 & -> & Hs)]].
    + apply phone_shape_inv in Hs as (digits & _ & -> & Hd & H8 & H15).
      rewrite span_all_digits by done.
      assert ((8 <=? String.length digits)%nat = true) as -> by by apply Nat.leb_le.
      by assert ((String.length digits <=? 15)%nat = true) as -> by by apply Nat.leb_le.
    + apply phone_shape_inv in Hs as (digits & Hs0 & _ & Hd & H8 & H15).
      assert (match s0 +:+ String "010" "" with
              | String "+" d => d
              | _ => s0 +:+ String "010" ""
              end = digits +:+ String "010" "") as ->.
      { destruct Hs0 as [-> | ->]; [|done].
        destruct digits as [|c d]; [simpl in H8; lia|].
        rewrite TextFacts.app_cons. apply no_sign, plus_not_digit.
        simpl in Hd. by apply andb_true_iff in Hd as [? _]. }
      rewrite span_all_digits_newline by done.
      assert ((8 <=? String.length digits)%nat = true) as -> by by apply Nat.leb_le.
      by assert ((String.length digits <=? 15)%nat = true) as -> by by apply Nat.leb_le.
Qed.

(** The handlers strip what the user typed: no newline is left at the
    end, so what gets through has the shape of a phone. *)
Lemma validate_phone_strip entered phone :
  validate_phone (strip entered) = Some phone → phone_shape phone = true.
Proof.
  intros [-> [H|(s0 & E & _)]]%validate_phone_shape; [done|].
  pose proof (TextMore.strip_last entered "010") as Hl.
  rewrite E, last_char_snoc in Hl. by specialize (Hl eq_refl).
Qed.

End PhoneFacts.


(** X8. What a handler takes from the dialog is stripped first; a phone
    that gets through then is an optional [+] followed by 8 to 15 digits,
    the newline excluded. *)
Theorem validate_phone_of_stripped (entered phone : string) :
  Validate.validate_phone (Text.strip entered) = Some phone →
  phone = Text.strip entered ∧ phone_shape phone = true.
Proof.
  intros H. split; [|by eapply PhoneFacts.validate_phone_strip].
  by apply PhoneFacts.validate_phone_shape in H as [-> _].
Qed.

Lemma validate_phone_of_stripped_witness :
  Validate.validate_phone (Text.strip "  +201234567890
") = Some "+201234567890"
  ∧ phone_shape "+201234567890" = true.
Proof.
  assert (H : Validate.validate_phone (Text.strip "  +201234567890
") = Some "+201234567890") by reflexivity.
  split; [exact H|]. exact (proj2 (validate_phone_of_stripped _ _ H)).
Defined.

(** ** What a handler can do to the rows *)

Module HandlerFacts.
Import StoreFacts SearchFacts ScopeFacts SaveFacts DeleteFacts.

(** A scope leaves the data base as it was, or as its body made it, and
    then the constraints hold. *)
Lemma session_scope_cases {A} (body : M A) db :
  snd (session_scope body db) = db
  ∨ (snd (session_scope body db) = snd (body db)
     ∧ constraints (snd (body db))
     ∧ ∃ a, fst (body db) = Ok a ∧ fst (session_scope body db) = Ok a).
Proof.
  unfold session_scope, run, commit, rollback. simpl.
  destruct (body db) as [[a|e] rows]; simpl; [|by left].
  destruct (decide (constraints rows)); simpl; [|by left].
  right. split; [done|]. split; [done|]. by exists a.
Qed.

Lemma show_records_store query app : store (snd (show_records query app)) = store app.
Proof. by rewrite show_records_app. Qed.

Lemma modify_store askstring app :
  store (snd (fst (modify_patient_gui askstring app))) = store app.
Proof.
  unfold modify_patient_gui. destruct askstring as [s|]; [|done].
  destruct (Validate.validate_phone _) as [phone|]; [|done].
  destruct (negb _); [done|].
  assert (Hs : snd (session_scope (modify_unit phone) (store app)) = store app).
  { destruct (session_scope_cases (modify_unit phone) (store app)) as [H|(H & _)];
      [done|].
    rewrite H. unfold modify_unit, bind, query_first_by_phone.
    by destruct (first_by_phone phone (store app)). }
  destruct (session_scope _ _) as [[w|e] db]; simpl in *; by subst.
Qed.

Lemma save_modifications_store w app :
  store (snd (fst (save_modifications w app))) = store app.
Proof.
  unfold save_modifications. destruct (negb _); [done|].
  pose proof (report_store (showinfo "Success" "Patient details updated.") app) as H.
  by destruct (report _ app).
Qed.

(** What [save] leaves: the rows as they were, or the rows of its unit of
    work for a phone of the right shape and the fee of [validate_fee]. *)
Lemma save_store float w app :
  store (snd (save float w app)) = store app
  ∨ ∃ name phone treatment fee_val,
      phone_shape phone = true
      ∧ fee_val = Validate.validate_fee float (Text.strip (fee_entry w))
      ∧ store (snd (save float w app))
        = saved_rows name phone treatment (teeth_var w) (date_picker w)
            (Text.strip (appointment_treatment_combobox w))
            (Text.strip (dentist_combobox w)) fee_val (Text.strip (notes_entry w))
            (store app)
      ∧ constraints (store (snd (save float w app))).
Proof.
  unfold save.
  destruct (negb (Text.truthy (Text.strip (name_entry w)))); [by left|].
  destruct (Validate.validate_phone _) as [phone|] eqn:Hv; [|by left].
  destruct (negb (Text.truthy phone)); [by left|].
  destruct (negb (Text.truthy (Text.strip (appointment_treatment_combobox w))));
    [by left|].
  destruct (negb (Text.truthy (Text.strip (dentist_combobox w)))); [by left|].
  match goal with |- context [session_scope ?b ?d] =>
    destruct (session_scope_cases b d) as [H|(H & Hc & _)];
    destruct (session_scope b d) as [[[]|e] db] end; simpl in *;
    rewrite ?report_store; simpl; try (by left).
  all: right; rewrite save_unit_rows in H, Hc; simpl in H, Hc.
  all: eexists _, phone, _, _; split; [by eapply PhoneFacts.validate_phone_strip|].
  all: split; [done|]; split; [exact H|]; by rewrite H.
Qed.

(** What [delete_patient_gui] leaves: the rows as they were, or the rows
    without a patient and its appointments. *)
Lemma delete_store askstring askyesno app :
  store (snd (delete_patient_gui askstring askyesno app)) = store app
  ∨ ∃ p, p ∈ patients (store app)
         ∧ store (snd (delete_patient_gui askstring askyesno app)) = deleted p (store app)
         ∧ constraints (deleted p (store app)).
Proof.
  unfold delete_patient_gui. destruct askstring as [s|]; [|by left].
  destruct (Validate.validate_phone _) as [phone|]; [|by left].
  destruct (negb _); [by left|].
  destruct (session_scope_cases (delete_unit phone askyesno) (store app))
    as [H|(H & Hc & _)];
    destruct (session_scope _ _) as [[[]|e] db]; simpl in *;
    rewrite ?report_store; simpl; try (by left).
  all: revert H Hc; unfold delete_unit, bind, query_first_by_phone;
    destruct (first_by_phone phone (store app)) as [p|] eqn:E; simpl;
    [|by left]; destruct askyesno; simpl; intros -> Hc; [|by left..].
  all: right; exists p; split; [by apply first_by_phone_Some in E as [? _]|done].
Qed.

(** An event leaves the rows, or saves, or deletes. *)
Lemma handle_store float app ev :
  store (handle float app ev) = store app
  ∨ (∃ name phone treatment teeth date app_treatment dentist fee_val notes,
       phone_shape phone = true
       ∧ (∀ f, fee_val = Some f → Validate.ge_zero f = true)
       ∧ store (handle float app ev)
         = saved_rows name phone treatment teeth date app_treatment dentist
             fee_val notes (store app)
       ∧ constraints (store (handle float app ev)))
  ∨ (∃ p, p ∈ patients (store app)
          ∧ store (handle float app ev) = deleted p (store app)
          ∧ constraints (deleted p (store app))).
Proof.
  destruct ev as [w|askstring askyesno|askstring|w|entry|]; simpl.
  - destruct (save_store float w app) as [H|(n & ph & t & fv & Hp & Hf & H & Hc)];
      [by left|].
    right; left. eexists n, ph, t, _, _, _, _, fv, _.
    split; [done|]. split; [|split; [exact H|done]].
    intros f Ef. rewrite Hf in Ef. unfold Validate.validate_fee in Ef.
    destruct (float _) as [g|]; [|done].
    destruct (Validate.ge_zero g) eqn:Hg; [|done]. by injection Ef as <-.
  - destruct (delete_store askstring askyesno app) as [H|H]; [by left|by right; right].
  - left. apply modify_store.
  - left. apply save_modifications_store.
  - left. apply show_records_store.
  - left. apply show_records_store.
Qed.

(** *** Invariants of the two writes *)

Lemma saved_patient_in name phone treatment teeth db :
  saved_patient name phone treatment teeth db
  ∈ saved_patients name phone treatment teeth db.
Proof.
  unfold saved_patients, saved_patient.
  destruct (first_by_phone phone db) as [p|] eqn:E.
  - apply first_by_phone_Some in E as [Hp _]. unfold overwrite.
    apply list_elem_of_fmap. exists p. split; [|done]. by rewrite decide_True.
  - apply elem_of_app. right. by apply list_elem_of_singleton.
Qed.

(** The rows after [save] have the ids they had. *)
Lemma saved_patients_ids name phone treatment teeth db p :
  p ∈ patients db →
  ∃ q, q ∈ saved_patients name phone treatment teeth db ∧ Patient.id q = Patient.id p.
Proof.
  intros Hp. unfold saved_patients.
  destruct (first_by_phone phone db) as [r|].
  - eexists. split; [unfold overwrite; by apply list_elem_of_fmap_2|].
    simpl. by destruct (decide _).
  - exists p. split; [|done]. apply elem_of_app. by left.
Qed.

Lemma saved_rows_owned name phone treatment teeth date app_treatment dentist fee notes db :
  owned db →
  owned (saved_rows name phone treatment teeth date app_treatment dentist fee notes db).
Proof.
  intros Ho a. unfold saved_rows. simpl.
  intros [Ha| ->%list_elem_of_singleton]%elem_of_app.
  - destruct (Ho a Ha) as (p & Hp & E).
    destruct (saved_patients_ids name phone treatment teeth db p Hp) as (q & Hq & Eq).
    exists q. split; [done|]. by rewrite Eq.
  - eexists. split; [apply saved_patient_in|done].
Qed.

Lemma deleted_owned p db : owned db → owned (deleted p db).
Proof.
  intros Ho a. unfold deleted. simpl. intros [Hne Ha]%list_elem_of_filter.
  destruct (Ho a Ha) as (q & Hq & E). exists q. split; [|done].
  apply list_elem_of_filter. split; [|done]. intros Eid. apply Hne. by rewrite E, Eid.
Qed.

Lemma saved_rows_fees name phone treatment teeth date app_treatment dentist fee notes db :
  (∀ f, fee = Some f → Validate.ge_zero f = true) →
  fees_ok db →
  fees_ok (saved_rows name phone treatment teeth date app_treatment dentist fee notes db).
Proof.
  intros Hfee Hf a f. unfold saved_rows. simpl.
  intros [Ha| ->%list_elem_of_singleton]%elem_of_app; [by apply Hf|].
  simpl. apply Hfee.
Qed.

Lemma deleted_fees p db : fees_ok db → fees_ok (deleted p db).
Proof.
  intros Hf a f. unfold deleted. simpl. intros [_ Ha]%list_elem_of_filter.
  by apply Hf.
Qed.

Lemma saved_rows_phones name phone treatment teeth date app_treatment dentist fee notes db :
  phone_shape phone = true →
  phones_ok db →
  phones_ok (saved_rows name phone treatment teeth date app_treatment dentist fee notes db).
Proof.
  intros Hph Hp q. unfold saved_rows, saved_patients, saved_patient. simpl.
  destruct (first_by_phone phone db) as [r|] eqn:E.
  - unfold overwrite. intros (q0 & -> & Hq0)%list_elem_of_fmap.
    destruct (decide _); simpl; by apply Hp.
  - intros [Hq| ->%list_elem_of_singleton]%elem_of_app; [by apply Hp|done].
Qed.

Lemma deleted_phones p db : phones_ok db → phones_ok (deleted p db).
Proof.
  intros Hp q. unfold deleted. simpl. intros [_ Hq]%list_elem_of_filter.
  by apply Hp.
Qed.

End HandlerFacts.



(** X10. No appointment outlives its patient: when every appointment has
    its patient among the rows, the same holds after any sequence of
    events. *)
Theorem events_keep_appointments_owned (float : string → option spec_float)
    (evs : list event) (app : App) :
  owned (store app) → owned (store (handle_all float app evs)).
Proof.
  revert app. induction evs as [|ev evs IH]; intros app Ho; [done|].
  simpl. apply IH.
  destruct (HandlerFacts.handle_store float app ev)
    as [-> | [(? & ? & ? & ? & ? & ? & ? & ? & ? & _ & _ & -> & _) | (p & _ & -> & _)]].
  - done.
  - by apply HandlerFacts.saved_rows_owned.
  - by apply HandlerFacts.deleted_owned.
Qed.

Lemma events_keep_appointments_owned_witness :
  owned (store start) ∧ owned (store (handle_all float_table start afternoon)).
Proof.
  assert (H : owned (store start)) by (intros a Ha; by apply elem_of_nil in Ha).
  split; [exact H|]. exact (events_keep_appointments_owned float_table afternoon start H).
Defined.

(** X11. No fee below zero is ever stored: when every fee of the data
    base is at least zero, the same holds after any sequence of events,
    whatever Python's [float] is. *)
Theorem events_keep_fees_nonnegative (float : string → option spec_float)
    (evs : list event) (app : App) :
  fees_ok (store app) → fees_ok (store (handle_all float app evs)).
Proof.
  revert app. induction evs as [|ev evs IH]; intros app Hf; [done|].
  simpl. apply IH.
  destruct (HandlerFacts.handle_store float app ev)
    as [-> | [(? & ? & ? & ? & ? & ? & ? & ? & ? & _ & Hfee & -> & _) | (p & _ & -> & _)]].
  - done.
  - by apply HandlerFacts.saved_rows_fees.
  - by apply HandlerFacts.deleted_fees.
Qed.

Lemma events_keep_fees_nonnegative_witness :
  fees_ok (store start) ∧ fees_ok (store (handle_all float_table start afternoon)).
Proof.
  assert (H : fees_ok (store start)) by (intros a f Ha; by apply elem_of_nil in Ha).
  split; [exact H|]. exact (events_keep_fees_nonnegative float_table afternoon start H).
Defined.

(** X12. Every stored phone has the shape of a phone: when every phone of
    the data base is an optional [+] and 8 to 15 digits, the same holds
    after any sequence of events. *)
Theorem events_keep_phones_in_shape (float : string → option spec_float)
    (evs : list event) (app : App) :
  phones_ok (store app) → phones_ok (store (handle_all float app evs)).
Proof.
  revert app. induction evs as [|ev evs IH]; intros app Hp; [done|].
  simpl. apply IH.
  destruct (HandlerFacts.handle_store float app ev)
    as [-> | [(? & ? & ? & ? & ? & ? & ? & ? & ? & Hph & _ & -> & _) | (p & _ & -> & _)]].
  - done.
  - by apply HandlerFacts.saved_rows_phones.
  - by apply HandlerFacts.deleted_phones.
Qed.

Lemma events_keep_phones_in_shape_witness :
  phones_ok (store start) ∧ phones_ok (store (handle_all float_table start afternoon)).
Proof.
  assert (H : phones_ok (store start)) by (intros p Hp; by apply elem_of_nil in Hp).
  split; [exact H|]. exact (events_keep_phones_in_shape float_table afternoon start H).
Defined.

(** ** [save], as the user meets it *)

Module SaveMore.
Import StoreFacts SearchFacts ScopeFacts SaveFacts HandlerFacts.

Lemma save_runs float w app phone :
  constraints (store app) →
  Text.strip (name_entry w) ≠ EmptyString →
  Validate.validate_phone (Text.strip (phone_entry w)) = Some phone →
  Text.strip (appointment_treatment_combobox w) ≠ EmptyString →
  Text.strip (dentist_combobox w) ≠ EmptyString →
  save float w app
  = ([showinfo "Success"
        ("Patient '" +:+ Text.strip (name_entry w)
         +:+ "' and appointment added successfully.")],
     {| store := form_rows float w phone (store app);
        tree := tree_rows None (form_rows float w phone (store app)) |}).
Proof.
  intros Hc Hn Hv Ht Hd. unfold save.
  apply TextFacts.truthy_true in Hn, Ht, Hd.
  pose proof (validate_phone_Some _ _ Hv) as [_ Hp].
  rewrite Hn, Hv, Hp, Ht, Hd. simpl negb. cbv iota.
  rewrite save_unit_commits by done.
  rewrite report_ok; [done|]. simpl. by apply saved_rows_constraints.
Qed.

(** A row that has another phone is not touched by the unit of work. *)
Lemma saved_patients_other name phone treatment teeth db q :
  NoDup (Patient.id <$> patients db) →
  q ∈ patients db → Patient.phone_number q ≠ phone →
  q ∈ saved_patients name phone treatment teeth db
  ∧ Patient.id q ≠ Patient.id (saved_patient name phone treatment teeth db).
Proof.
  intros Hnd Hq Hne. unfold saved_patients, saved_patient.
  destruct (first_by_phone phone db) as [p|] eqn:E.
  - apply first_by_phone_Some in E as [Hp E].
    assert (Hid : Patient.id q ≠ Patient.id p).
    { intros Eid. apply (key_inj Patient.id (patients db)) in Eid; [|done..].
      by subst. }
    split; [|done]. unfold overwrite. apply list_elem_of_fmap. exists q.
    split; [|done]. by rewrite decide_False.
  - split; [apply elem_of_app; by left|]. simpl.
    intros Eid. apply (next_id_fresh (Patient.id <$> patients db)).
    rewrite <- Eid. by apply list_elem_of_fmap_2.
Qed.

End SaveMore.

(** X13. [save] checks the form in this order and stops at the first
    check that fails: the name, the phone, the treatment of the
    appointment, the dentist. Each time it shows the one message of that
    check, and neither the data base nor the list changes. *)
Theorem save_refuses_the_form (float : string → option spec_float)
    (w : AddWindow) (app : App) :
  (Text.strip (name_entry w) = EmptyString →
   save float w app = ([showerror "Error" "Patient name cannot be empty."], app))
  ∧ (Text.strip (name_entry w) ≠ EmptyString →
     Validate.validate_phone (Text.strip (phone_entry w)) = None →
     save float w app = ([showerror "Error" "Invalid phone number."], app))
  ∧ (Text.strip (name_entry w) ≠ EmptyString →
     Validate.validate_phone (Text.strip (phone_entry w)) ≠ None →
     Text.strip (appointment_treatment_combobox w) = EmptyString →
     save float w app
     = ([showerror "Error" "Appointment treatment type is required."], app))
  ∧ (Text.strip (name_entry w) ≠ EmptyString →
     Validate.validate_phone (Text.strip (phone_entry w)) ≠ None →
     Text.strip (appointment_treatment_combobox w) ≠ EmptyString →
     Text.strip (dentist_combobox w) = EmptyString →
     save float w app = ([showerror "Error" "Dentist name is required."], app)).
Proof.
  unfold save. repeat split.
  - by intros ->.
  - intros Hn%TextFacts.truthy_true ->. by rewrite Hn.
  - intros Hn%TextFacts.truthy_true Hv ->.
    destruct (Validate.validate_phone _) as [phone|] eqn:E; [|done].
    apply ScopeFacts.validate_phone_Some in E as [_ Hp]. by rewrite Hn, Hp.
  - intros Hn%TextFacts.truthy_true Hv Ht%TextFacts.truthy_true ->.
    destruct (Validate.validate_phone _) as [phone|] eqn:E; [|done].
    apply ScopeFacts.validate_phone_Some in E as [_ Hp]. by rewrite Hn, Hp, Ht.
Qed.

Lemma save_refuses_the_form_witness :
  save float_table
    (mkAddWindow "Bob" "20000000" "Filling" "" (mkDate 2025 2 3) "Filling" "  " "5" "")
    (mkApp clinic [])
  = ([showerror "Error" "Dentist name is required."], mkApp clinic []).
Proof.
  apply (proj2 (proj2 (proj2 (save_refuses_the_form float_table
           (mkAddWindow "Bob" "20000000" "Filling" "" (mkDate 2025 2 3) "Filling"
              "  " "5" "") (mkApp clinic [])))));
    (reflexivity || discriminate).
Defined.



(** X15. [save] touches the patient of its phone and no other: on a data
    base that meets its constraints, every patient with another phone
    keeps its row, is still found by its phone, and has the appointments
    it had. *)
Theorem save_leaves_the_others (float : string → option spec_float)
    (w : AddWindow) (app : App) (q : Patient.t) :
  constraints (store app) →
  q ∈ patients (store app) →
  Validate.validate_phone (Text.strip (phone_entry w))
  ≠ Some (Patient.phone_number q) →
  let db := store (snd (save float w app)) in
  q ∈ patients db
  ∧ first_by_phone (Patient.phone_number q) db = Some q
  ∧ appointments_of q db = appointments_of q (store app).
Proof.
  intros Hc Hq Hne db.
  assert (Hsame : db = store app →
            q ∈ patients db
            ∧ first_by_phone (Patient.phone_number q) db = Some q
            ∧ appointments_of q db = appointments_of q (store app)).
  { intros ->. split; [done|]. split; [|done].
    destruct Hc as (_ & Hph & _). by apply StoreFacts.first_by_phone_unique. }
  subst db. unfold save in *.
  destruct (negb (Text.truthy (Text.strip (name_entry w)))); [by apply Hsame|].
  destruct (Validate.validate_phone _) as [phone|] eqn:Hv; [|by apply Hsame].
  destruct (negb (Text.truthy phone)); [by apply Hsame|].
  destruct (negb (Text.truthy (Text.strip (appointment_treatment_combobox w))));
    [by apply Hsame|].
  destruct (negb (Text.truthy (Text.strip (dentist_combobox w)))); [by apply Hsame|].
  rewrite SaveFacts.save_unit_commits in * by done.
  rewrite ScopeFacts.report_store. simpl. clear Hsame.
  assert (Hphone : Patient.phone_number q ≠ phone) by congruence.
  destruct Hc as (Hid & Hph & Haid).
  destruct (SaveMore.saved_patients_other (Text.strip (name_entry w)) phone
              (Text.strip (patient_treatment_entry w)) (teeth_var w) (store app) q
              Hid Hq Hphone) as [Hin Hqid].
  split; [exact Hin|]. split.
  - apply StoreFacts.first_by_phone_unique; [|exact Hin].
    match goal with |- context [saved_rows ?n ?p ?t ?th ?d ?at' ?de ?f ?no ?s] =>
      destruct (SaveFacts.saved_rows_constraints n p t th d at' de f no s) as (_ & H & _)
    end; [by repeat split|exact H].
  - unfold appointments_of, saved_rows. simpl. rewrite filter_app.
    rewrite filter_cons_False; [by rewrite filter_nil, app_nil_r|].
    simpl. by intros [= E].
Qed.

Lemma save_leaves_the_others_witness :
  constraints clinic ∧ Ann ∈ patients clinic
  ∧ appointments_of Ann
      (store (snd (save float_table
                     (mkAddWindow "Bob" "+20000000" "Crown" "" (mkDate 2025 4 2)
                        "Crown" "Essam" "" "") (mkApp clinic []))))
    = appointments_of Ann clinic.
Proof.
  assert (Hin : Ann ∈ patients clinic) by (apply elem_of_cons; by left).
  split; [exact clinic_constraints|]. split; [exact Hin|].
  apply (save_leaves_the_others float_table
           (mkAddWindow "Bob" "+20000000" "Crown" "" (mkDate 2025 4 2)
              "Crown" "Essam" "" "") (mkApp clinic []) Ann clinic_constraints Hin).
  discriminate.
Defined.

(** ** [delete_patient_gui], as the user meets it *)

Module DeleteMore.
Import StoreFacts SearchFacts ScopeFacts SaveFacts DeleteFacts HandlerFacts.

Lemma filter_all {A} (P : A → Prop) `{∀ x, Decision (P x)} (l : list A) :
  Forall P l → filter P l = l.
Proof.
  induction 1 as [|x l Hx Hl IH]; [done|]. by rewrite filter_cons_True, IH.
Qed.

Lemma delete_runs entered phone p app :
  constraints (store app) →
  Validate.validate_phone (Text.strip entered) = Some phone →
  first_by_phone phone (store app) = Some p →
  delete_patient_gui (Some entered) true app
  = ([showinfo "Deleted" ("Patient with phone '" +:+ phone +:+ "' deleted.")],
     {| store := deleted p (store app); tree := tree_rows None (deleted p (store app)) |}).
Proof.
  intros Hc Hv E. pose proof (validate_phone_Some _ _ Hv) as [_ Ht].
  unfold delete_patient_gui. rewrite Hv, Ht. simpl negb. cbv iota.
  erewrite session_scope_commits;
    [|by apply delete_unit_found|by apply deleted_constraints].
  rewrite report_ok; [done|]. by apply deleted_constraints.
Qed.

Lemma delete_missing entered phone askyesno app :
  Validate.validate_phone (Text.strip entered) = Some phone →
  first_by_phone phone (store app) = None →
  delete_patient_gui (Some entered) askyesno app
  = ([showerror "Error" "Patient not found."], app).
Proof.
  intros Hv E. pose proof (validate_phone_Some _ _ Hv) as [_ Ht].
  unfold delete_patient_gui. rewrite Hv, Ht. simpl negb. cbv iota.
  erewrite session_scope_rolls_back; [|by apply delete_unit_missing].
  simpl. by destruct app.
Qed.

(** A patient other than the deleted one keeps its row and its
    appointments. *)
Lemma deleted_other p q db :
  NoDup (Patient.id <$> patients db) → p ∈ patients db → q ∈ patients db → q ≠ p →
  q ∈ patients (deleted p db) ∧ appointments_of q (deleted p db) = appointments_of q db.
Proof.
  intros Hnd Hp Hq Hne.
  assert (Hid : Patient.id q ≠ Patient.id p).
  { intros E. by apply (key_inj Patient.id (patients db)) in E. }
  split.
  - unfold deleted. simpl. by apply list_elem_of_filter.
  - unfold appointments_of, deleted. simpl.
    rewrite list_filter_filter. apply filter_ext_in.
    intros a _. split; [by intros [? _]|]. intros E. split; [done|].
    rewrite E. by intros [= ?].
Qed.

(** Deleting the patient that a unit of work of [save] has just added
    gives the rows from before. *)
Lemma deleted_saved name phone treatment teeth date app_treatment dentist fee notes db :
  owned db → first_by_phone phone db = None →
  deleted (saved_patient name phone treatment teeth db)
    (saved_rows name phone treatment teeth date app_treatment dentist fee notes db)
  = db.
Proof.
  intros Ho E. unfold deleted, saved_rows, saved_patients, saved_patient.
  rewrite E. simpl. destruct db as [ps apps]. simpl in *. f_equal.
  - rewrite filter_app, filter_cons_False by (intros H; done).
    rewrite filter_nil, app_nil_r. apply filter_all, Forall_forall.
    intros q Hq Eid. apply (next_id_fresh (Patient.id <$> ps)).
    rewrite <- Eid. by apply list_elem_of_fmap_2.
  - rewrite filter_app, filter_cons_False by (intros H; done).
    rewrite filter_nil, app_nil_r. apply filter_all, Forall_forall.
    intros a Ha Eid. destruct (Ho a Ha) as (q & Hq & Eq). simpl in *.
    rewrite Eq in Eid. injection Eid as Eid.
    apply (next_id_fresh (Patient.id <$> ps)).
    rewrite <- Eid. by apply list_elem_of_fmap_2.
Qed.

End DeleteMore.

(** X16. Three ways out of [delete_patient_gui] that delete nothing. The
    phone dialog cancelled: no message, nothing changes. A phone that is
    not valid: "Invalid phone number.", nothing changes. The patient found
    and the confirmation answered no: no message, nothing changes. *)
Theorem delete_patient_gui_without_effect (askyesno : bool) (app : App) :
  delete_patient_gui None askyesno app = ([], app)
  ∧ (∀ entered,
       Validate.validate_phone (Text.strip entered) = None →
       delete_patient_gui (Some entered) askyesno app
       = ([showerror "Error" "Invalid phone number."], app))
  ∧ (∀ entered phone p,
       constraints (store app) →
       Validate.validate_phone (Text.strip entered) = Some phone →
       first_by_phone phone (store app) = Some p →
       delete_patient_gui (Some entered) false app = ([], app)).
Proof.
  split; [done|]. split.
  - intros entered Hv. unfold delete_patient_gui. by rewrite Hv.
  - intros entered phone p Hc Hv E.
    pose proof (ScopeFacts.validate_phone_Some _ _ Hv) as [_ Ht].
    unfold delete_patient_gui. rewrite Hv, Ht. simpl negb. cbv iota.
    rewrite (StoreFacts.session_scope_commits (delete_unit phone false) (store app)
               false (store app)); [|  |exact Hc].
    + simpl. by destruct app.
    + unfold delete_unit, bind, query_first_by_phone. by rewrite E.
Qed.

Lemma delete_patient_gui_without_effect_witness :
  constraints clinic
  ∧ delete_patient_gui (Some "+10000000") false (mkApp clinic []) = ([], mkApp clinic [])
  ∧ delete_patient_gui (Some "ten") true (mkApp clinic [])
    = ([showerror "Error" "Invalid phone number."], mkApp clinic []).
Proof.
  split; [exact clinic_constraints|]. split.
  - apply (proj2 (proj2 (delete_patient_gui_without_effect false (mkApp clinic [])))
             "+10000000" "+10000000" Ann clinic_constraints); reflexivity.
  - apply (proj1 (proj2 (delete_patient_gui_without_effect true (mkApp clinic [])))
             "ten"). reflexivity.
Defined.

(** X17. A confirmed delete takes one patient and leaves the others: on a
    data base that meets its constraints, every other patient keeps its
    row, is still found by its phone, and has the appointments it had. *)
Theorem delete_leaves_the_others (entered phone : string) (app : App)
    (p q : Patient.t) :
  constraints (store app) →
  Validate.validate_phone (Text.strip entered) = Some phone →
  first_by_phone phone (store app) = Some p →
  q ∈ patients (store app) → q ≠ p →
  let db := store (snd (delete_patient_gui (Some entered) true app)) in
  q ∈ patients db
  ∧ first_by_phone (Patient.phone_number q) db = Some q
  ∧ appointments_of q db = appointments_of q (store app).
Proof.
  intros Hc Hv E Hq Hne db. subst db.
  rewrite (DeleteMore.delete_runs entered phone p app) by done. simpl.
  pose proof (StoreFacts.first_by_phone_Some _ _ _ E) as [Hp _].
  destruct (DeleteFacts.deleted_constraints p _ Hc) as (_ & Hph' & _).
  destruct Hc as (Hid & Hph & _).
  destruct (DeleteMore.deleted_other p q (store app) Hid Hp Hq Hne) as [Hin Happ].
  split; [done|]. split; [|done]. by apply StoreFacts.first_by_phone_unique.
Qed.

Lemma delete_leaves_the_others_witness :
  constraints clinic
  ∧ first_by_phone "+20000000"
      (store (snd (delete_patient_gui (Some "+10000000") true (mkApp clinic []))))
    = Some Bob
  ∧ appointments_of Bob
      (store (snd (delete_patient_gui (Some "+10000000") true (mkApp clinic []))))
    = [visit 3 (mkDate 2025 2 1) "Crown" 2].
Proof.
  split; [exact clinic_constraints|].
  assert (Hin : Bob ∈ patients clinic).
  { apply elem_of_cons. right. apply elem_of_cons. by left. }
  destruct (delete_leaves_the_others "+10000000" "+10000000" (mkApp clinic []) Ann Bob
              clinic_constraints eq_refl eq_refl Hin) as (_ & H1 & H2); [done|].
  split; [exact H1|]. rewrite H2. reflexivity.
Defined.

(** X18. A patient is deleted once: after a confirmed delete on a data
    base that meets its constraints, the same phone gives "Patient not
    found." and changes nothing. *)
Theorem delete_twice_is_not_found (entered phone : string) (app : App)
    (p : Patient.t) (askyesno : bool) :
  constraints (store app) →
  Validate.validate_phone (Text.strip entered) = Some phone →
  first_by_phone phone (store app) = Some p →
  let app' := snd (delete_patient_gui (Some entered) true app) in
  delete_patient_gui (Some entered) askyesno app'
  = ([showerror "Error" "Patient not found."], app').
Proof.
  intros Hc Hv E app'. subst app'.
  rewrite (DeleteMore.delete_runs entered phone p app) by done. simpl.
  apply (DeleteMore.delete_missing entered phone); [done|]. simpl.
  destruct Hc as (_ & Hph & _). by apply DeleteFacts.deleted_first.
Qed.

Lemma delete_twice_is_not_found_witness :
  constraints clinic
  ∧ fst (delete_patient_gui (Some "+10000000") true
           (snd (delete_patient_gui (Some "+10000000") true (mkApp clinic []))))
    = [showerror "Error" "Patient not found."].
Proof.
  split; [exact clinic_constraints|].
  rewrite (delete_twice_is_not_found "+10000000" "+10000000" (mkApp clinic []) Ann true
             clinic_constraints eq_refl eq_refl).
  reflexivity.
Defined.

(** X19. Adding a patient under a phone that no patient has, and deleting
    that phone at once, gives back the data base from before: the same
    patients and the same appointments, when every appointment had its
    patient and the constraints held. *)
Theorem save_then_delete_restores (float : string → option spec_float)
    (w : AddWindow) (app : App) (phone : string) :
  constraints (store app) → owned (store app) →
  Text.strip (name_entry w) ≠ EmptyString →
  Validate.validate_phone (Text.strip (phone_entry w)) = Some phone →
  Text.strip (appointment_treatment_combobox w) ≠ EmptyString →
  Text.strip (dentist_combobox w) ≠ EmptyString →
  first_by_phone phone (store app) = None →
  store (handle_all float app
           [SaveClicked w; DeleteClicked (Some (phone_entry w)) true])
  = store app.
Proof.
  intros Hc Ho Hn Hv Ht Hd E.
  change (store (snd (delete_patient_gui (Some (phone_entry w)) true
                        (snd (save float w app)))) = store app).
  rewrite (SaveMore.save_runs float w app phone) by done. cbn [snd].
  rewrite (DeleteMore.delete_runs (phone_entry w) phone
             (saved_patient (Text.strip (name_entry w)) phone
                (Text.strip (patient_treatment_entry w)) (teeth_var w) (store app))).
  - cbn [snd store]. unfold form_rows. by apply DeleteMore.deleted_saved.
  - by apply SaveFacts.saved_rows_constraints.
  - exact Hv.
  - cbn [store]. unfold form_rows. by apply SaveFacts.saved_rows_first.
Qed.

Lemma save_then_delete_restores_witness :
  constraints clinic ∧ owned clinic
  ∧ store (handle_all float_table (mkApp clinic [])
             [SaveClicked (mkAddWindow "Eve" "+30000000" "" "" (mkDate 2025 4 2)
                             "Other" "Noha" "" "");
              DeleteClicked (Some "+30000000") true])
    = clinic.
Proof.
  assert (Ho : owned clinic).
  { intros a Ha. unfold clinic in Ha. simpl in Ha.
    repeat (apply elem_of_cons in Ha as [->|Ha]); [..|by apply elem_of_nil in Ha].
    - exists Ann. split; [apply elem_of_cons; by left|done].
    - exists Ann. split; [apply elem_of_cons; by left|done].
    - exists Bob. split; [|done]. apply elem_of_cons. right. apply elem_of_cons. by left. }
  split; [exact clinic_constraints|]. split; [exact Ho|].
  apply (save_then_delete_restores float_table
           (mkAddWindow "Eve" "+30000000" "" "" (mkDate 2025 4 2) "Other" "Noha" "" "")
           (mkApp clinic []) "+30000000" clinic_constraints Ho);
    (reflexivity || discriminate).
Defined.

(** ** [modify_patient_gui], as the user meets it *)

(** X20. [modify_patient_gui] writes nothing, whatever the dialog
    returns. For a valid phone on a data base that meets its constraints:
    when a patient has the phone, no message is shown and the window opens
    with the name, the treatment type and the teeth location of that
    patient, an absent one as the empty text; when no patient has it, the
    message is "Patient not found.". In the window, a name that is blank
    is refused with "Patient name cannot be empty." and the window stays
    as it is. *)
Theorem modify_patient_gui_opens (askstring : option string) (app : App) :
  store (snd (fst (modify_patient_gui askstring app))) = store app
  ∧ (∀ entered phone p,
       constraints (store app) →
       askstring = Some entered →
       Validate.validate_phone (Text.strip entered) = Some phone →
       first_by_phone phone (store app) = Some p →
       modify_patient_gui askstring app
       = ([], app,
          Some (mkModWindow p (Patient.patient_name p)
                  (or_empty (Patient.treatment_type p))
                  (or_empty (Patient.teeth_location p)))))
  ∧ (∀ entered phone,
       askstring = Some entered →
       Validate.validate_phone (Text.strip entered) = Some phone →
       first_by_phone phone (store app) = None →
       modify_patient_gui askstring app
       = ([showerror "Error" "Patient not found."], app, None))
  ∧ (∀ w, Text.strip (mod_name_entry w) = EmptyString →
          save_modifications w app
          = ([showerror "Error" "Patient name cannot be empty."], app, w)).
Proof.
  split; [apply HandlerFacts.modify_store|]. split; [|split].
  - intros entered phone p Hc -> Hv E.
    pose proof (ScopeFacts.validate_phone_Some _ _ Hv) as [_ Ht].
    unfold modify_patient_gui. rewrite Hv, Ht. simpl negb. cbv iota.
    rewrite (StoreFacts.session_scope_commits (modify_unit phone) (store app)
               (mkModWindow p (Patient.patient_name p)
                  (or_empty (Patient.treatment_type p))
                  (or_empty (Patient.teeth_location p))) (store app));
      [| |exact Hc].
    + simpl. by destruct app.
    + unfold modify_unit, bind, query_first_by_phone. by rewrite E.
  - intros entered phone -> Hv E.
    pose proof (ScopeFacts.validate_phone_Some _ _ Hv) as [_ Ht].
    unfold modify_patient_gui. rewrite Hv, Ht. simpl negb. cbv iota.
    rewrite (StoreFacts.session_scope_rolls_back (modify_unit phone) (store app)
               (ValueError "Patient not found.") (store app)).
    + simpl. by destruct app.
    + unfold modify_unit, bind, query_first_by_phone. by rewrite E.
  - intros w Hw. unfold save_modifications. by rewrite Hw.
Qed.

Lemma modify_patient_gui_opens_witness :
  constraints clinic
  ∧ modify_patient_gui (Some " +20000000") (mkApp clinic [])
    = ([], mkApp clinic [], Some (mkModWindow Bob "Bob" "Filling" "")).
Proof.
  split; [exact clinic_constraints|].
  apply (proj1 (proj2 (modify_patient_gui_opens (Some " +20000000") (mkApp clinic [])))
           " +20000000" "+20000000" Bob clinic_constraints); reflexivity.
Defined.

(** ** [show_records], as the user meets it *)

Module ShowMore.
Import StoreFacts SearchFacts.

Lemma patient_rows_length db p :
  length (patient_rows db p) = Nat.max 1 (length (appointments_of p db)).
Proof.
  unfold patient_rows, appointments_sorted.
  pose proof (sorted_Permutation
                (λ a b, date_ltb (Appointment.appointment_date a)
                                 (Appointment.appointment_date b))
                (appointments_of p db)) as Hperm.
  apply Permutation_length in Hperm.
  destruct (appointments_of p db) as [|a l] eqn:E; [done|].
  rewrite length_fmap, Hperm. simpl. lia.
Qed.

Lemma patient_rows_of db p row :
  row ∈ patient_rows db p →
  col_patient row = Patient.patient_name p
  ∧ col_phone row = Patient.phone_number p
  ∧ (col_appointment_date row = None ↔ appointments_of p db = []).
Proof.
  unfold patient_rows.
  destruct (appointments_of p db) as [|a l] eqn:E.
  - intros ->%list_elem_of_singleton. by simpl.
  - intros (a' & -> & _)%list_elem_of_fmap. simpl. split; [done|]. split; [done|].
    split; intros; done.
Qed.

Lemma tree_rows_length query db :
  length (tree_rows query db)
  = sum_list ((λ p, Nat.max 1 (length (appointments_of p db))) <$> all_patients query db).
Proof.
  unfold tree_rows. induction (all_patients query db) as [|p l IH]; [done|].
  rewrite bind_cons, length_app, patient_rows_length, IH. reflexivity.
Qed.

Lemma all_patients_sublist query db : all_patients query db `sublist_of` patients db.
Proof.
  unfold all_patients. destruct query as [q|]; [|done].
  destruct (Text.truthy q); [|done].
  induction (patients db) as [|p l IH]; [done|]. simpl.
  destruct (selects _ db p); by constructor.
Qed.

(** Where the key is the same, [insort] keeps the order. *)
Lemma insort_stable (d : Date) x l :
  filter (λ a, Appointment.appointment_date a = d)
    (insort (λ a b, date_ltb (Appointment.appointment_date a)
                             (Appointment.appointment_date b)) x l)
  = filter (λ a, Appointment.appointment_date a = d) (x :: l).
Proof.
  induction l as [|y l IH]; [done|]. simpl.
  destruct (date_ltb _ _) eqn:E; [|done].
  destruct (decide (Appointment.appointment_date y = d)) as [Hy|Hy];
    destruct (decide (Appointment.appointment_date x = d)) as [Hx|Hx].
  - exfalso. rewrite Hx, Hy in E. pose proof (date_ltb_asym d d E). congruence.
  - rewrite (filter_cons_True _ y) by done. rewrite IH.
    rewrite !(filter_cons_False _ x) by done. by rewrite filter_cons_True.
  - rewrite (filter_cons_False _ y) by done. rewrite IH.
    rewrite !(filter_cons_True _ x) by done. by rewrite filter_cons_False.
  - rewrite (filter_cons_False _ y) by done. rewrite IH.
    rewrite !(filter_cons_False _ x) by done. by rewrite filter_cons_False.
Qed.

Lemma like_three_percent t : Sql.like "%%%" t = true.
Proof.
  assert (H2 : ∀ t, Sql.like "%%" t = true).
  { intros u. rewrite SqlFacts.like_any. by rewrite SqlFacts.like_percent. }
  rewrite SqlFacts.like_any. by rewrite H2.
Qed.

Lemma lower_empty s : Sql.lower s = EmptyString ↔ s = EmptyString.
Proof. by destruct s. Qed.

End ShowMore.

(** X21. [show_records] reads and does not write. Whatever the query, the
    data base is the same afterwards; the patients shown are patients of
    the data base, in its order, none twice over; each of them has one
    line when it has no appointment and one line for each appointment
    otherwise; and every line has the name and the phone of its patient,
    with an empty date exactly when the patient has no appointment. *)
Theorem show_records_lines (query : option string) (app : App) :
  store (snd (show_records query app)) = store app
  ∧ all_patients query (store app) `sublist_of` patients (store app)
  ∧ length (tree (snd (show_records query app)))
    = sum_list ((λ p, Nat.max 1 (length (appointments_of p (store app))))
                <$> all_patients query (store app))
  ∧ ∀ row, row ∈ tree (snd (show_records query app)) →
           ∃ p, p ∈ all_patients query (store app)
                ∧ col_patient row = Patient.patient_name p
                ∧ col_phone row = Patient.phone_number p
                ∧ (col_appointment_date row = None
                   ↔ appointments_of p (store app) = []).
Proof.
  rewrite SearchFacts.show_records_app. simpl.
  split; [done|]. split; [apply ShowMore.all_patients_sublist|].
  split; [apply ShowMore.tree_rows_length|].
  intros row. unfold tree_rows. intros (p & Hrow & Hp)%list_elem_of_bind.
  exists p. split; [done|]. by apply ShowMore.patient_rows_of.
Qed.

(** X22. The sort of the appointments is stable: in the lines of a
    patient, the appointments of one date stand in the order that they
    have in the data base. *)
Theorem appointments_sorted_is_stable (p : Patient.t) (db : Store) (d : Date) :
  filter (λ a, Appointment.appointment_date a = d) (appointments_sorted p db)
  = filter (λ a, Appointment.appointment_date a = d) (appointments_of p db).
Proof.
  unfold appointments_sorted.
  induction (appointments_of p db) as [|x l IH]; [done|].
  simpl. rewrite ShowMore.insort_stable.
  destruct (decide (Appointment.appointment_date x = d)).
  - rewrite !filter_cons_True by done. by rewrite IH.
  - rewrite !filter_cons_False by done. exact IH.
Qed.

(** X23. The search does not see the case of the letters A to Z in the
    term: two terms that differ in it only show the same patients. *)
Theorem search_ignores_case (term1 term2 : string) (db : Store) :
  Sql.lower term1 = Sql.lower term2 →
  all_patients (Some term1) db = all_patients (Some term2) db.
Proof.
  intros E. unfold all_patients.
  assert (Ht : Text.truthy term1 = Text.truthy term2).
  { destruct term1, term2; try done. }
  rewrite Ht. destruct (Text.truthy term2); [|done].
  assert (Hs : ∀ column,
            Sql.ilike column ("%" +:+ term1 +:+ "%")
            = Sql.ilike column ("%" +:+ term2 +:+ "%")).
  { intros [text|]; [|done]. unfold Sql.ilike.
    change ("%" +:+ term1 +:+ "%") with (String "%" (term1 +:+ "%")).
    change ("%" +:+ term2 +:+ "%") with (String "%" (term2 +:+ "%")).
    cbn [Sql.lower]. by rewrite !SqlFacts.lower_app, E. }
  induction (patients db) as [|p l IH]; [done|]. cbn [List.filter].
  assert (Hp : selects ("%" +:+ term1 +:+ "%") db p
               = selects ("%" +:+ term2 +:+ "%") db p).
  { unfold selects. rewrite !Hs. f_equal.
    induction (appointments_of p db) as [|a apps IHa]; [done|].
    cbn [existsb]. by rewrite Hs, IHa. }
  by rewrite Hp, IH.
Qed.

Lemma search_ignores_case_witness :
  Sql.lower "CLEAN" = Sql.lower "clean"
  ∧ all_patients (Some "CLEAN") clinic = [Ann].
Proof.
  split; [reflexivity|].
  rewrite (search_ignores_case "CLEAN" "clean" clinic eq_refl). reflexivity.
Defined.

(** X24. The term [%] is a wildcard and not a text to look for: a search
    for it shows every patient, with or without a percent sign in its
    texts. A search field of blanks only shows every patient as well. *)
Theorem search_for_percent_shows_all (db : Store) :
  all_patients (Some "%") db = patients db
  ∧ ∀ search_entry app,
      Text.strip search_entry = EmptyString →
      tree (snd (search_records search_entry app)) = tree_rows None (store app).
Proof.
  split.
  - unfold all_patients. simpl Text.truthy. cbv iota.
    induction (patients db) as [|p l IH]; [done|]. cbn [List.filter].
    assert (Hp : selects ("%" +:+ "%" +:+ "%") db p = true).
    { unfold selects, Sql.ilike.
      change (Sql.lower ("%" +:+ "%" +:+ "%")) with "%%%".
      by rewrite ShowMore.like_three_percent. }
    by rewrite Hp, IH.
  - intros entry app He. unfold search_records. rewrite He.
    by rewrite SearchFacts.show_records_app.
Qed.

Lemma search_for_percent_shows_all_witness :
  Text.strip "   " = EmptyString
  ∧ tree (snd (search_records "   " (mkApp clinic []))) = tree_rows None clinic.
Proof.
  split; [reflexivity|].
  apply (proj2 (search_for_percent_shows_all clinic) "   " (mkApp clinic [])).
  reflexivity.
Defined.

(** ** [auto_refresh] *)

(** X25. The refresh of every minute reads and does not write: on a data
    base that meets its constraints it ends without an exception, the
    data base is the same, the list shows every patient, and the message
    about today is logged exactly when an appointment has the date of
    today, with the number of these appointments. *)
Theorem auto_refresh_reads (today_date : Date) (app : App) :
  constraints (store app) →
  ∃ logged,
    auto_refresh today_date app
    = (Ok logged, {| store := store app; tree := tree_rows None (store app) |})
    ∧ (logged = None
       ↔ ∀ a, a ∈ appointments (store app) →
              Appointment.appointment_date a ≠ today_date)
    ∧ ∀ message,
        logged = Some message →
        message = "There are "
                  +:+ Text.str_int (Z.of_nat (length (apps_on today_date (store app))))
                  +:+ " appointment(s) scheduled for today.".
Proof.
  intros Hc. unfold auto_refresh.
  pose proof (SearchFacts.show_records_app None app) as Happ.
  pose proof (SearchFacts.show_records_ok None app Hc) as Hok.
  destruct (show_records None app) as [[[]|e] app']; simpl in *; [|done].
  subst app'. simpl.
  rewrite (StoreFacts.session_scope_commits _ (store app)
             (apps_on today_date (store app)) (store app)) by done.
  eexists. split; [reflexivity|]. split.
  - destruct (apps_on today_date (store app)) as [|a l] eqn:E.
    + split; [|done]. intros _ a Ha Hd.
      assert (a ∈ apps_on today_date (store app)) as Hin
        by by apply list_elem_of_filter.
      rewrite E in Hin. by apply elem_of_nil in Hin.
    + split; [done|]. intros H. exfalso.
      assert (a ∈ apps_on today_date (store app)) as Hin
        by (rewrite E; apply elem_of_cons; by left).
      apply list_elem_of_filter in Hin as [Hd Hin]. by apply (H a).
  - intros message. destruct (apps_on today_date (store app)); [done|].
    by intros [= <-].
Qed.

Lemma auto_refresh_reads_witness :
  constraints clinic
  ∧ ∃ logged,
      auto_refresh (mkDate 2025 2 1) (mkApp clinic [])
      = (Ok logged, mkApp clinic (tree_rows None clinic))
      ∧ logged ≠ None.
Proof.
  split; [exact clinic_constraints|].
  destruct (auto_refresh_reads (mkDate 2025 2 1) (mkApp clinic []) clinic_constraints)
    as (logged & H & Hnone & _).
  exists logged. split; [exact H|].
  intros Hl. pose proof (proj1 Hnone Hl) as Hall.
  apply (Hall (visit 3 (mkDate 2025 2 1) "Crown" 2)); [|reflexivity].
  unfold clinic. simpl. set_solver.
Defined.

(** ** The fee at the edges of the floats *)

(** X26. Of the values of [float] that are no ordinary number,
    [validate_fee] refuses "not a number" and minus infinity, and lets
    plus infinity and minus zero through as they are. *)
Theorem validate_fee_special_values (float : string → option spec_float)
    (fee : string) (f : spec_float) :
  float fee = Some f →
  match f with
  | S754_nan | S754_infinity true => Validate.validate_fee float fee = None
  | S754_infinity false | S754_zero _ => Validate.validate_fee float fee = Some f
  | S754_finite s _ _ =>
      Validate.validate_fee float fee = if s then None else Some f
  end.
Proof.
  intros E. unfold Validate.validate_fee. rewrite E.
  by destruct f as [[]|[]| |[] m e].
Qed.

Lemma validate_fee_special_values_witness :
  float_special "inf" = Some (S754_infinity false)
  ∧ Validate.validate_fee float_special "inf" = Some (S754_infinity false)
  ∧ Validate.validate_fee float_special "nan" = None.
Proof.
  split; [reflexivity|]. split.
  - exact (validate_fee_special_values float_special "inf" _ eq_refl).
  - exact (validate_fee_special_values float_special "nan" S754_nan eq_refl).
Defined.

(** ** The list and the data base *)

Module FreshFacts.
Import StoreFacts SearchFacts ScopeFacts HandlerFacts.







End FreshFacts.


